(** * promptMaster: the conversation-history indexer and its query engine

    A shallow embedding of [claude_history.py], [history_index.py] and
    [history_search.py].  The two indexers share [init_db],
    [extract_content] and [index_jsonl] word for word (they differ in the
    database path and in how often the driver commits), so these functions
    are embedded once.

    Conventions.
    - A Python [str] is a [string]; one [ascii] stands for one character.
    - A value coming out of [json.loads] is a [pyval].
    - What Python's and SQLite's libraries print for a value is taken as it
      is found: [repr], [str.upper], [Path.name], and the text SQLite gives
      a [REAL] stored in a [TEXT] column, are parameters.
    - A computation that can raise returns an [option]; [None] is the raised
      exception.  Every handler in the source catches [Exception] as a whole
      (or [json.JSONDecodeError], which has a case of its own in [line]), so
      the exception's class is not recorded.
    - The SQLite tables are lists of rows in rowid order. *)

From Stdlib Require Import List String Ascii ZArith Bool Lia QArith.
From Stdlib Require Import Sorted Permutation DecimalString.
Import ListNotations.
Open Scope string_scope.
Open Scope Z_scope.
Open Scope list_scope.

Set Warnings "-register-all".

(** ** Exceptions *)

Definition bind {A B : Type} (c : option A) (k : A -> option B) : option B :=
  match c with
  | Some a => k a
  | None => None
  end.

Notation "x <- c ;; k" := (bind c (fun x => k))
  (at level 61, c at next level, right associativity).

Notation "' pat <- c ;; k" :=
  (bind c (fun x => match x with pat => k end))
  (at level 61, pat pattern, c at next level, right associativity).

(** ** Python values and the builtins the scripts call *)

Module Py.

(** A Python [float]: what [json.loads] returns for a number written with
    a fraction or an exponent, and for [NaN], [Infinity] and [-Infinity].  A
    finite float is given by the rational number it denotes, negative zero
    apart. *)
Inductive pyfloat : Type :=
| FNaN
| FInf (negative : bool)
| FNegZero
| FFin (q : Q).

Inductive pyval : Type :=
| PNone
| PBool (b : bool)
| PInt (z : Z)
| PFloat (f : pyfloat)
| PStr (s : string)
| PList (items : list pyval)
| PDict (fields : list (string * pyval)).

(** The number a float denotes, when it denotes one. *)
Definition float_value (f : pyfloat) : option Q :=
  match f with
  | FNaN | FInf _ => None
  | FNegZero => Some 0%Q
  | FFin q => Some q
  end.

(** [bool(v)], as used by [if not v] and by [a or b]. *)
Definition truthy (v : pyval) : bool :=
  match v with
  | PNone => false
  | PBool b => b
  | PInt z => negb (z =? 0)
  | PFloat f =>
      match float_value f with
      | Some q => negb (Qeq_bool q 0)
      | None => true
      end
  | PStr s => negb (s =? "")%string
  | PList items => match items with [] => false | _ => true end
  | PDict fields => match fields with [] => false | _ => true end
  end.

(** The binding of key [k] in a decoded object; the first pair with that key
    is the dictionary's binding. *)
Fixpoint field_get (fields : list (string * pyval)) (k : string) (dflt : pyval)
  : pyval :=
  match fields with
  | [] => dflt
  | (k', v) :: rest => if (k' =? k)%string then v else field_get rest k dflt
  end.

(** [obj.get(k, dflt)]: only a dict has [get]; anything else raises
    [AttributeError]. *)
Definition get (obj : pyval) (k : string) (dflt : pyval) : option pyval :=
  match obj with
  | PDict fields => Some (field_get fields k dflt)
  | _ => None
  end.

(** [v == s] for a string literal [s]. *)
Definition eq_str (v : pyval) (s : string) : bool :=
  match v with
  | PStr t => (t =? s)%string
  | _ => false
  end.

(** Whether [v] can be a dict key; lists and dicts raise [TypeError]. *)
Definition hashable (v : pyval) : bool :=
  match v with
  | PList _ | PDict _ => false
  | _ => true
  end.

Definition bool_int (b : bool) : Z := if b then 1 else 0.

(** [x == y] on floats, as a dict compares its keys: by value, [0.0] and
    [-0.0] being equal.  [NaN] differs from itself, but [json] decodes
    every [NaN] to one and the same object, which a dict finds by
    identity. *)
Definition float_eqb (x y : pyfloat) : bool :=
  match x, y with
  | FNaN, FNaN => true
  | FInf a, FInf b => Bool.eqb a b
  | _, _ =>
      match float_value x, float_value y with
      | Some p, Some q => Qeq_bool p q
      | _, _ => false
      end
  end.

(** [x == z] for a float and an integer: Python compares the exact
    values. *)
Definition float_int_eqb (x : pyfloat) (z : Z) : bool :=
  match float_value x with
  | Some p => Qeq_bool p (inject_Z z)
  | None => false
  end.

(** Equality of dict keys: [True == 1], [False == 0] and [1 == 1.0]. *)
Definition key_eqb (a b : pyval) : bool :=
  match a, b with
  | PNone, PNone => true
  | PStr x, PStr y => (x =? y)%string
  | PInt x, PInt y => x =? y
  | PBool x, PBool y => Bool.eqb x y
  | PBool x, PInt y => bool_int x =? y
  | PInt x, PBool y => x =? bool_int y
  | PFloat x, PFloat y => float_eqb x y
  | PFloat x, PInt y => float_int_eqb x y
  | PInt x, PFloat y => float_int_eqb y x
  | PFloat x, PBool y => float_int_eqb x (bool_int y)
  | PBool x, PFloat y => float_int_eqb y (bool_int x)
  | _, _ => false
  end.

Definition decimal (z : Z) : string := NilZero.string_of_int (Z.to_int z).

(** [s[:n]] *)
Definition take (n : nat) (s : string) : string := substring 0 n s.

(** [s[i:j]] for [i <= j] *)
Definition slice (i j : nat) (s : string) : string := substring i (j - i) s.

Definition nl : string := String "010"%char "".

(** The elements of [parts] when all of them are strings. *)
Fixpoint strings_of (parts : list pyval) : option (list string) :=
  match parts with
  | [] => Some []
  | PStr s :: rest => ss <- strings_of rest ;; Some (s :: ss)
  | _ :: _ => None
  end.

(** [sep.join(parts)]; raises [TypeError] when an element is not a [str]. *)
Definition join (sep : string) (parts : list pyval) : option string :=
  ss <- strings_of parts ;; Some (String.concat sep ss).

End Py.
Import Py.

(** ** SQLite values *)

Module Sql.

(** What a [TEXT] column holds: [None] is [NULL]. *)
Definition text : Type := option string.

Definition int64 (z : Z) : bool := (- 2 ^ 63 <=? z) && (z <? 2 ^ 63).

(** The text SQLite gives a [REAL] that goes into a [TEXT] column: its
    rendering with 15 significant digits, ['1.0'] for 1.0 and ['1.0e+100']
    for 1e100.  It is SQLite's own and is used as it is found. *)
Class real_text : Type := text_of_real : pyfloat -> string.

(** Binding a Python value to a parameter that is stored in a [TEXT]
    column.  The [sqlite3] module accepts [None], [int] (so [bool] too),
    [float] and [str]; a list or dict raises [ProgrammingError] and an [int]
    outside 64 bits raises [OverflowError].  A [NaN] is bound as [NULL].
    The column's [TEXT] affinity then turns an integer into its decimal
    text and any other float into the text of the [REAL]. *)
Definition bind_text {real : real_text} (v : pyval) : option text :=
  match v with
  | PNone => Some None
  | PBool b => Some (Some (decimal (bool_int b)))
  | PInt z => if int64 z then Some (Some (decimal z)) else None
  | PFloat FNaN => Some None
  | PFloat f => Some (Some (text_of_real f))
  | PStr s => Some (Some s)
  | PList _ | PDict _ => None
  end.

(** [a = b]: a comparison with [NULL] is never true. *)
Definition eqb (a b : text) : bool :=
  match a, b with
  | Some x, Some y => (x =? y)%string
  | _, _ => false
  end.

(** The scalar [MAX(a, b)]: [NULL] as soon as one argument is [NULL],
    otherwise the larger text under the [BINARY] collation. *)
Definition max (a b : text) : text :=
  match a, b with
  | Some x, Some y => Some (if String.ltb x y then y else x)
  | _, _ => None
  end.

(** The order of [ORDER BY] on a [TEXT] column: [NULL] sorts first. *)
Definition leb (a b : text) : bool :=
  match a, b with
  | None, _ => true
  | Some _, None => false
  | Some x, Some y => String.leb x y
  end.

Definition lower (c : ascii) : ascii :=
  let n := nat_of_ascii c in
  if ((65 <=? n) && (n <=? 90))%nat then ascii_of_nat (n + 32) else c.

Definition nocase_eqb (c d : ascii) : bool := Ascii.eqb (lower c) (lower d).

(** [s LIKE pat] for a pattern SQLite accepts, with its defaults: [%]
    matches any run of characters, [_] any one character, ASCII letters
    match without regard to case, and there is no escape character. *)
Fixpoint like (pat s : string) {struct pat} : bool :=
  match pat with
  | EmptyString => match s with EmptyString => true | String _ _ => false end
  | String c pat' =>
      if Ascii.eqb c "%"%char then
        (fix skip (t : string) : bool :=
           like pat' t
           || match t with
              | EmptyString => false
              | String _ t' => skip t'
              end) s
      else
        match s with
        | EmptyString => false
        | String d s' =>
            (Ascii.eqb c "_"%char || nocase_eqb c d) && like pat' s'
        end
  end.

(** SQLite's limit on the length of a [LIKE] pattern, in bytes. *)
Definition like_pattern_limit : Z := 50000.

(** [col LIKE pat] evaluated on one row.  On a longer pattern SQLite
    raises [LIKE or GLOB pattern too complex], whatever the column holds;
    on [NULL] the match is not true. *)
Definition like_text (pat : string) (s : text) : option bool :=
  if like_pattern_limit <? Z.of_nat (String.length pat) then None
  else Some match s with
            | Some id => like pat id
            | None => false
            end.

(** [SELECT ... WHERE col LIKE ?] followed by [fetchone()]: the rows are
    visited in the order of the scan up to the first one that matches.
    Nothing is evaluated on an empty table. *)
Fixpoint first_like {A : Type} (col : A -> text) (pat : string)
  (rows : list A) : option (option A) :=
  match rows with
  | [] => Some None
  | r :: rest =>
      b <- like_text pat (col r) ;;
      if b then Some (Some r) else first_like col pat rest
  end.

(** Binding a Python [int] to a parameter: outside 64 bits the [sqlite3]
    module raises [OverflowError]. *)
Definition bind_int (z : Z) : option Z := if int64 z then Some z else None.

(** What [LIMIT n] keeps of the rows: a negative [n] means no limit. *)
Definition first_rows {A : Type} (n : Z) (rows : list A) : list A :=
  if n <? 0 then rows else firstn (Z.to_nat n) rows.

(** [LIMIT ?] with the Python [int] [n] bound to the parameter. *)
Definition limit {A : Type} (n : Z) (rows : list A) : option (list A) :=
  n' <- bind_int n ;; Some (first_rows n' rows).

(** [ORDER BY] as a stable insertion sort on the scan order. *)
Fixpoint insert_by {A : Type} (le : A -> A -> bool) (x : A) (l : list A)
  : list A :=
  match l with
  | [] => [x]
  | y :: l' => if le x y then x :: l else y :: insert_by le x l'
  end.

Fixpoint order_by {A : Type} (le : A -> A -> bool) (l : list A) : list A :=
  match l with
  | [] => []
  | x :: l' => insert_by le x (order_by le l')
  end.

End Sql.

Section Store.

Context {real : Sql.real_text}.

(** ** The schema of [init_db] *)

Record session_row : Type := mk_session_row {
  s_session_id : Sql.text;
  s_project : Sql.text;
  s_cwd : Sql.text;
  s_git_branch : Sql.text;
  s_first_ts : Sql.text;
  s_last_ts : Sql.text;
  s_message_count : Z
}.

Record message_row : Type := mk_message_row {
  m_uuid : Sql.text;
  m_session_id : Sql.text;
  m_parent_uuid : Sql.text;
  m_type : Sql.text;
  m_role : Sql.text;
  m_content : Sql.text;
  m_timestamp : Sql.text;
  m_model : Sql.text;
  m_tool_names : Sql.text
}.

(** A row of [messages_fts]: the indexed [(uuid, content)].  The table is
    declared with [content='messages'], so FTS5 reads column values back
    from [messages] by rowid; as rows are only ever appended to both tables
    together, the values read are the values indexed. *)
Definition fts_row : Type := (Sql.text * Sql.text)%type.

Record db : Type := mk_db {
  sessions : list session_row;
  messages : list message_row;
  messages_fts : list fts_row
}.

(** A database on which [init_db] has just created the tables. *)
Definition init_db : db := mk_db [] [] [].

Record stats : Type := mk_stats {
  st_files : Z;
  st_sessions : Z;
  st_messages : Z;
  st_errors : Z
}.

(** ** The indexer: [extract_content] and [index_jsonl] *)

(** What one turn of [for line in f] delivers, after [line.strip()] and
    [json.loads(line)]. *)
Inductive line : Type :=
| Blank                    (* the stripped line is empty *)
| Undecodable              (* [json.loads] raises [JSONDecodeError] *)
| Decoded (entry : pyval)  (* [json.loads] returns [entry] *)
| ReadFailure.             (* [open], the iterator or [json.loads] raises
                              anything else *)

(** The values of the per-file dict [session_data]. *)
Record sdata : Type := mk_sdata {
  sd_project : pyval;
  sd_cwd : pyval;
  sd_git_branch : pyval;
  sd_first_ts : pyval;
  sd_last_ts : pyval;
  sd_count : Z
}.

(** The elements of the per-file list [messages]. *)
Record message : Type := mk_message {
  msg_uuid : pyval;
  msg_session_id : pyval;
  msg_parent_uuid : pyval;
  msg_type : pyval;
  msg_role : pyval;
  msg_content : string;
  msg_timestamp : pyval;
  msg_model : pyval;
  msg_tool_names : string
}.

(** A Python dict keeps its keys in insertion order. *)
Definition session_map : Type := list (pyval * sdata).

Fixpoint has_key (k : pyval) (d : session_map) : bool :=
  match d with
  | [] => false
  | (k', _) :: rest => key_eqb k' k || has_key k rest
  end.

(** [d[k] = f(d[k])] *)
Fixpoint update_key (k : pyval) (f : sdata -> sdata) (d : session_map)
  : session_map :=
  match d with
  | [] => []
  | (k', v) :: rest =>
      if key_eqb k' k then (k', f v) :: rest
      else (k', v) :: update_key k f rest
  end.

Definition set_last_ts (ts : pyval) (v : sdata) : sdata :=
  mk_sdata (sd_project v) (sd_cwd v) (sd_git_branch v) (sd_first_ts v) ts
           (sd_count v).

Definition incr_count (v : sdata) : sdata :=
  mk_sdata (sd_project v) (sd_cwd v) (sd_git_branch v) (sd_first_ts v)
           (sd_last_ts v) (sd_count v + 1).

Definition entry_types : list string := ["user"; "assistant"; "summary"].

(** [entry_type in ("user", "assistant", "summary")] *)
Definition in_entry_types (v : pyval) : bool := existsb (eq_str v) entry_types.

Section Indexer.

(** [str(v)] for a float, a list or a dict [v], that is Python's [repr]
    of it. *)
Variable py_repr : pyval -> string.

(** [str(v)] *)
Definition py_str (v : pyval) : string :=
  match v with
  | PStr s => s
  | PNone => "None"
  | PBool true => "True"
  | PBool false => "False"
  | PInt z => decimal z
  | PFloat _ | PList _ | PDict _ => py_repr v
  end.

(** The loop [for block in content] of [extract_content], with its two
    accumulators. *)
Fixpoint scan_blocks (content text_parts tool_names : list pyval)
  : list pyval * list pyval :=
  match content with
  | [] => (text_parts, tool_names)
  | block :: rest =>
      match block with
      | PDict fields =>
          let ty := field_get fields "type" PNone in
          if eq_str ty "text" then
            scan_blocks rest
              (text_parts ++ [field_get fields "text" (PStr "")]) tool_names
          else if eq_str ty "tool_use" then
            scan_blocks rest text_parts
              (tool_names ++ [field_get fields "name" (PStr "")])
          else if eq_str ty "tool_result" then
            scan_blocks rest
              (text_parts
                 ++ [PStr (take 500 (py_str (field_get fields "content" (PStr ""))))])
              tool_names
          else scan_blocks rest text_parts tool_names
      | _ => scan_blocks rest text_parts tool_names
      end
  end.

(** [extract_content(message_obj)], returning [(content, model, tool_names)]. *)
Definition extract_content (message_obj : pyval)
  : option (string * pyval * list pyval) :=
  if negb (truthy message_obj) then Some ("", PStr "", [])
  else
    content <- get message_obj "content" (PStr "") ;;
    model <- get message_obj "model" (PStr "") ;;
    match content with
    | PList blocks =>
        let '(text_parts, tool_names) := scan_blocks blocks [] [] in
        text <- join nl text_parts ;;
        Some (text, model, tool_names)
    | _ => Some (py_str content, model, [])
    end.

(** The body of the reading loop for a decoded [entry]; [None] when a
    statement of the body raises. *)
Definition process_entry (entry : pyval) (session_data : session_map)
  (msgs : list message) : option (session_map * list message) :=
  entry_type <- get entry "type" (PStr "") ;;
  if negb (in_entry_types entry_type) then Some (session_data, msgs)
  else
    session_id <- get entry "sessionId" (PStr "") ;;
    if negb (truthy session_id) then Some (session_data, msgs)
    else if negb (hashable session_id) then None
    else
      cwd <- get entry "cwd" (PStr "") ;;
      git_branch <- get entry "gitBranch" (PStr "") ;;
      timestamp <- get entry "timestamp" (PStr "") ;;
      let session_data1 :=
        if negb (has_key session_id session_data)
        then session_data
               ++ [(session_id, mk_sdata cwd cwd git_branch timestamp timestamp 0)]
        else update_key session_id (set_last_ts timestamp) session_data in
      let session_data2 := update_key session_id incr_count session_data1 in
      msg_obj <- get entry "message" (PDict []) ;;
      '(content, model, tool_names) <- extract_content msg_obj ;;
      uuid <- get entry "uuid" (PStr "") ;;
      parent_uuid <- get entry "parentUuid" (PStr "") ;;
      role <- get msg_obj "role" (PStr "") ;;
      names <- join "," tool_names ;;
      Some (session_data2,
            msgs ++ [mk_message uuid session_id parent_uuid entry_type role
                                content timestamp model names]).

(** The [try] block of [index_jsonl]: [None] when it leaves through
    [except Exception]. *)
Fixpoint read_lines (f : list line) (session_data : session_map)
  (msgs : list message) : option (session_map * list message) :=
  match f with
  | [] => Some (session_data, msgs)
  | Blank :: rest => read_lines rest session_data msgs
  | Undecodable :: rest => read_lines rest session_data msgs
  | Decoded entry :: rest =>
      '(session_data', msgs') <- process_entry entry session_data msgs ;;
      read_lines rest session_data' msgs'
  | ReadFailure :: _ => None
  end.

End Indexer.

(** *** The write phase *)

(** The seven parameters of the [INSERT INTO sessions] statement, bound;
    [None] when the [sqlite3] module refuses one of them. *)
Definition bind_session (sid : pyval) (v : sdata) : option session_row :=
  id <- Sql.bind_text sid ;;
  project <- Sql.bind_text (sd_project v) ;;
  cwd <- Sql.bind_text (sd_cwd v) ;;
  git_branch <- Sql.bind_text (sd_git_branch v) ;;
  first_ts <- Sql.bind_text (sd_first_ts v) ;;
  last_ts <- Sql.bind_text (sd_last_ts v) ;;
  if Sql.int64 (sd_count v)
  then Some (mk_session_row id project cwd git_branch first_ts last_ts
                            (sd_count v))
  else None.

(** [DO UPDATE SET last_ts = MAX(last_ts, excluded.last_ts),
    message_count = message_count + excluded.message_count].  The sum is
    SQLite's as long as it stays below [2 ^ 63], which a count of lines read
    does. *)
Definition merge_session (excluded stored : session_row) : session_row :=
  mk_session_row (s_session_id stored) (s_project stored) (s_cwd stored)
    (s_git_branch stored) (s_first_ts stored)
    (Sql.max (s_last_ts stored) (s_last_ts excluded))
    (s_message_count stored + s_message_count excluded).

Definition session_conflict (row : session_row) (rows : list session_row)
  : bool :=
  existsb (fun r => Sql.eqb (s_session_id r) (s_session_id row)) rows.

(** [INSERT INTO sessions ... ON CONFLICT(session_id) DO UPDATE ...] *)
Definition upsert_session (row : session_row) (conn : db) : db :=
  if session_conflict row (sessions conn)
  then mk_db (map (fun r => if Sql.eqb (s_session_id r) (s_session_id row)
                            then merge_session row r else r)
                  (sessions conn))
             (messages conn) (messages_fts conn)
  else mk_db (sessions conn ++ [row]) (messages conn) (messages_fts conn).

Definition count_session (st : stats) : stats :=
  mk_stats (st_files st) (st_sessions st + 1) (st_messages st) (st_errors st).

Definition count_message (st : stats) : stats :=
  mk_stats (st_files st) (st_sessions st) (st_messages st + 1) (st_errors st).

Definition count_file (st : stats) : stats :=
  mk_stats (st_files st + 1) (st_sessions st) (st_messages st) (st_errors st).

Definition count_error (st : stats) : stats :=
  mk_stats (st_files st) (st_sessions st) (st_messages st) (st_errors st + 1).

(** The loop [for sid, sdata in session_data.items()]; it has no handler,
    so a failed binding leaves [index_jsonl] as an exception. *)
Fixpoint insert_sessions (items : session_map) (conn : db) (st : stats)
  : option (db * stats) :=
  match items with
  | [] => Some (conn, st)
  | (sid, v) :: rest =>
      row <- bind_session sid v ;;
      insert_sessions rest (upsert_session row conn) (count_session st)
  end.

(** The nine parameters of the [INSERT OR IGNORE INTO messages] statement. *)
Definition bind_message (m : message) : option message_row :=
  uuid <- Sql.bind_text (msg_uuid m) ;;
  session_id <- Sql.bind_text (msg_session_id m) ;;
  parent_uuid <- Sql.bind_text (msg_parent_uuid m) ;;
  type <- Sql.bind_text (msg_type m) ;;
  role <- Sql.bind_text (msg_role m) ;;
  timestamp <- Sql.bind_text (msg_timestamp m) ;;
  model <- Sql.bind_text (msg_model m) ;;
  Some (mk_message_row uuid session_id parent_uuid type role
          (Some (msg_content m)) timestamp model (Some (msg_tool_names m))).

(** The [PRIMARY KEY] check on [messages.uuid].  The column is [TEXT] in an
    ordinary rowid table, where SQLite lets a primary key be [NULL] and
    counts every [NULL] as distinct: a [NULL] uuid never conflicts. *)
Definition uuid_conflict (row : message_row) (rows : list message_row)
  : bool :=
  existsb (fun r => Sql.eqb (m_uuid r) (m_uuid row)) rows.

(** The trigger [messages_ai]: [INSERT INTO messages_fts(uuid, content)
    VALUES (new.uuid, new.content)]. *)
Definition messages_ai (new : message_row) (fts : list fts_row)
  : list fts_row :=
  fts ++ [(m_uuid new, m_content new)].

(** [INSERT OR IGNORE INTO messages ...]: a row whose uuid conflicts is
    skipped and no trigger runs for it; otherwise the row is appended and
    [messages_ai] fires. *)
Definition insert_or_ignore (row : message_row) (conn : db) : db :=
  if uuid_conflict row (messages conn) then conn
  else mk_db (sessions conn) (messages conn ++ [row])
             (messages_ai row (messages_fts conn)).

(** One turn of [for msg in messages]: the statement and the counter are
    inside [try ... except Exception: pass]. *)
Definition insert_message (m : message) (conn : db) (st : stats)
  : db * stats :=
  match bind_message m with
  | Some row => (insert_or_ignore row conn, count_message st)
  | None => (conn, st)
  end.

Fixpoint insert_messages (msgs : list message) (conn : db) (st : stats)
  : db * stats :=
  match msgs with
  | [] => (conn, st)
  | m :: rest =>
      let '(conn', st') := insert_message m conn st in
      insert_messages rest conn' st'
  end.

Section IndexJsonl.

Variable py_repr : pyval -> string.

(** [index_jsonl(filepath, conn, stats)], on the content [f] of the file.
    The result is [None] when an exception escapes the function. *)
Definition index_jsonl (f : list line) (conn : db) (st : stats)
  : option (db * stats) :=
  match read_lines py_repr f [] [] with
  | None => Some (conn, count_error st)
  | Some (session_data, msgs) =>
      '(conn1, st1) <- insert_sessions session_data conn st ;;
      let '(conn2, st2) := insert_messages msgs conn1 st1 in
      Some (conn2, count_file st2)
  end.

(** The loop of [cmd_index] (and of [main] in [history_index.py]) over the
    files found; the commits between files do not change what the
    connection sees. *)
Fixpoint index_files (files : list (list line)) (conn : db) (st : stats)
  : option (db * stats) :=
  match files with
  | [] => Some (conn, st)
  | f :: rest =>
      '(conn', st') <- index_jsonl f conn st ;;
      index_files rest conn' st'
  end.

End IndexJsonl.

(** ** The query engine *)

(** The full-text engine behind [messages_fts]: SQLite's FTS5, which the
    scripts use as they find it.  [fts_match q] is the row filter of
    [messages_fts MATCH q], [None] when FTS5 rejects [q]
    ([OperationalError]); [fts_rank q index r] is the value of the hidden
    column [rank] for row [r], FTS5's bm25 score, which is smaller for a
    better match.  The score depends on the query and on what is indexed,
    and on nothing else in the database. *)
Record fts5 : Type := mk_fts5 {
  fts_match : string -> option (fts_row -> bool);
  fts_rank : string -> list fts_row -> fts_row -> Q
}.

(** A row of the search join: the index row, its message and the session
    the [LEFT JOIN] finds for it. *)
Definition hit : Type := (fts_row * message_row * option session_row)%type.

Definition hit_fts (h : hit) : fts_row := fst (fst h).
Definition hit_message (h : hit) : message_row := snd (fst h).

(** [LEFT JOIN sessions s ON m.session_id = s.session_id] *)
Definition left_join_sessions (f : fts_row) (m : message_row)
  (rows : list session_row) : list hit :=
  match filter (fun r => Sql.eqb (m_session_id m) (s_session_id r)) rows with
  | [] => [(f, m, None)]
  | found => map (fun r => (f, m, Some r)) found
  end.

(** [FROM messages_fts fts JOIN messages m ON fts.uuid = m.uuid
     LEFT JOIN sessions s ... WHERE messages_fts MATCH ?], scanned in index
    order.  The selected columns other than those of [m] and [s] (the
    [highlight] text) are left out. *)
Definition search_join (matches : fts_row -> bool) (conn : db) : list hit :=
  flat_map
    (fun f =>
       if matches f
       then flat_map
              (fun m => if Sql.eqb (fst f) (m_uuid m)
                        then left_join_sessions f m (sessions conn)
                        else [])
              (messages conn)
       else [])
    (messages_fts conn).

(** [ORDER BY m.timestamp DESC] *)
Definition by_timestamp_desc (a b : hit) : bool :=
  Sql.leb (m_timestamp (hit_message b)) (m_timestamp (hit_message a)).

(** [ORDER BY rank] *)
Definition by_rank (E : fts5) (query : string) (conn : db) (a b : hit)
  : bool :=
  Qle_bool (fts_rank E query (messages_fts conn) (hit_fts a))
           (fts_rank E query (messages_fts conn) (hit_fts b)).

(** The rows [cmd_search] of [claude_history.py] fetches and then prints. *)
Definition cmd_search (E : fts5) (query : string) (limit : Z) (conn : db)
  : option (list hit) :=
  matches <- fts_match E query ;;
  Sql.limit limit (Sql.order_by by_timestamp_desc (search_join matches conn)).

(** The rows [search] of [history_search.py] fetches and then formats. *)
Definition search (E : fts5) (query : string) (limit : Z) (conn : db)
  : option (list hit) :=
  matches <- fts_match E query ;;
  Sql.limit limit
    (Sql.order_by (by_rank E query conn) (search_join matches conn)).

(** [bool(v)] for a column value. *)
Definition text_truthy (v : Sql.text) : bool :=
  match v with
  | Some s => negb (s =? "")%string
  | None => false
  end.

(** [v or dflt] *)
Definition text_or (v : Sql.text) (dflt : string) : string :=
  match v with
  | Some s => if (s =? "")%string then dflt else s
  | None => dflt
  end.

(** A column value inside an f-string. *)
Definition text_str (v : Sql.text) : string :=
  match v with
  | Some s => s
  | None => "None"
  end.


(** [SELECT session_id, project, git_branch FROM sessions WHERE session_id
    LIKE ?] with the pattern [f"{session_prefix}%"], then [fetchone()], in
    [show_session]: SQLite scans the table, in rowid order. *)
Definition find_session (session_prefix : string) (conn : db)
  : option (option session_row) :=
  Sql.first_like s_session_id (session_prefix ++ "%")%string (sessions conn).

(** The order of the index SQLite keeps for the primary key of [sessions]:
    ascending [session_id], [NULL] first. *)
Definition by_session_id (a b : session_row) : bool :=
  Sql.leb (s_session_id a) (s_session_id b).

(** [SELECT session_id FROM sessions WHERE session_id LIKE ?] with the same
    pattern, then [fetchone()], in [cmd_show]: the one column asked for is
    in the index of the primary key, which SQLite scans instead of the
    table. *)
Definition find_session_id (session_prefix : string) (conn : db)
  : option (option session_row) :=
  Sql.first_like s_session_id (session_prefix ++ "%")%string
    (Sql.order_by by_session_id (sessions conn)).

(** [ORDER BY timestamp] *)
Definition by_timestamp (a b : message_row) : bool :=
  Sql.leb (m_timestamp a) (m_timestamp b).

(** [SELECT ... FROM messages WHERE session_id = ? ORDER BY timestamp] *)
Definition session_messages (id : Sql.text) (conn : db) : list message_row :=
  Sql.order_by by_timestamp
    (filter (fun m => Sql.eqb (m_session_id m) id) (messages conn)).

(** [content = m["content"] or ""], cut to 800 characters with [marker]
    appended when it is longer. *)
Definition display_content (marker : string) (content : Sql.text) : string :=
  let c := text_or content "" in
  if (800 <? String.length c)%nat then (take 800 c ++ marker)%string else c.

(** [m["role"] or m["type"]]; [None] is Python's [None], on which the
    following [.upper()] raises. *)
Definition role_of (m : message_row) : option string :=
  if text_truthy (m_role m) then m_role m else m_type m.

Definition not_found (session_prefix : string) : string :=
  ("No session found matching '" ++ session_prefix ++ "'")%string.

Fixpoint map_exc {A B : Type} (f : A -> option B) (l : list A)
  : option (list B) :=
  match l with
  | [] => Some []
  | a :: rest => b <- f a ;; bs <- map_exc f rest ;; Some (b :: bs)
  end.

Section Show.

(** [str.upper] and [Path(p).name], from Python's library. *)
Variable upper : string -> string.
Variable path_name : string -> string.

Definition project_name (project : Sql.text) : string :=
  match project with
  | Some p => if (p =? "")%string then "?" else path_name p
  | None => "?"
  end.

(** One element of [output] in [show_session]. *)
Definition show_message (m : message_row) : option string :=
  role <- role_of m ;;
  Some ("**" ++ upper role ++ "**: " ++ display_content "..." (m_content m)
        ++ nl)%string.

(** [show_session(session_prefix, limit)] of [history_search.py]. *)
Definition show_session (session_prefix : string) (limit : Z) (conn : db)
  : option string :=
  found <- find_session session_prefix conn ;;
  match found with
  | None => Some (not_found session_prefix)
  | Some session =>
      msgs <- Sql.limit limit
                (session_messages (s_session_id session) conn) ;;
      let header :=
        ("Session in " ++ project_name (s_project session) ++ " ("
         ++ text_or (s_git_branch session) "-" ++ "):" ++ nl)%string in
      body <- map_exc show_message msgs ;;
      Some (String.concat nl (header :: body))
  end.

(** The three [print] calls of [cmd_show] for one message. *)
Definition print_message (m : message_row) : option (list string) :=
  let ts := if text_truthy (m_timestamp m)
            then slice 11 19 (text_or (m_timestamp m) "") else "?" in
  role <- role_of m ;;
  let tools := if text_truthy (m_tool_names m)
               then (" [tools: " ++ text_or (m_tool_names m) "" ++ "]")%string
               else "" in
  Some [("[" ++ ts ++ "] " ++ upper role ++ tools)%string;
        display_content "...(truncated)" (m_content m);
        ""].

(** [cmd_show(session_prefix)] of [claude_history.py]: the strings it
    prints, one per [print] call; [None] when an exception escapes. *)
Definition cmd_show (session_prefix : string) (conn : db)
  : option (list string) :=
  found <- find_session_id session_prefix conn ;;
  match found with
  | None => Some [not_found session_prefix]
  | Some session =>
      let msgs := session_messages (s_session_id session) conn in
      body <- map_exc print_message msgs ;;
      Some (("Session: " ++ text_str (s_session_id session))%string
            :: ("Messages: " ++ decimal (Z.of_nat (List.length msgs)) ++ nl)%string
            :: List.concat body)
  end.

End Show.

(** ** The specification's reading of [normalize]

    The contributions of a block sequence as the specification words them,
    to be compared with [extract_content]. *)

Definition block_is (ty : string) (block : pyval) : bool :=
  match block with
  | PDict fields => eq_str (field_get fields "type" PNone) ty
  | _ => false
  end.

Definition block_field (k : string) (block : pyval) : pyval :=
  match block with
  | PDict fields => field_get fields k (PStr "")
  | _ => PStr ""
  end.

Section Normalize.

Variable py_repr : pyval -> string.

(** A text block contributes its text, a tool-result block its content
    coerced to text and cut to 500 characters, any other block nothing. *)
Definition text_of_block (block : pyval) : list string :=
  if block_is "text" block then
    match block_field "text" block with
    | PStr s => [s]
    | _ => []
    end
  else if block_is "tool_result" block then
    [take 500 (py_str py_repr (block_field "content" block))]
  else [].

(** A tool-invocation block contributes its name. *)
Definition tool_of_block (block : pyval) : list pyval :=
  if block_is "tool_use" block then [block_field "name" block] else [].

Definition normalize_text (blocks : list pyval) : string :=
  String.concat nl (flat_map text_of_block blocks).

Definition normalize_tools (blocks : list pyval) : list pyval :=
  flat_map tool_of_block blocks.

End Normalize.

(** The text of a text block is a string. *)
Definition text_block_ok (block : pyval) : Prop :=
  block_is "text" block = true -> exists s, block_field "text" block = PStr s.

(** ** Observations on the store *)

(** The index row that belongs to a message row. *)
Definition fts_of (m : message_row) : fts_row := (m_uuid m, m_content m).

(** The index mirrors the table, row for row. *)
Definition in_sync (conn : db) : Prop :=
  messages_fts conn = map fts_of (messages conn).

(** The number of message rows, and of index rows, with uuid [u]. *)
Definition uuid_count (u : string) (rows : list message_row) : nat :=
  List.length (filter (fun r => Sql.eqb (m_uuid r) (Some u)) rows).

Definition posting_count (u : string) (fts : list fts_row) : nat :=
  List.length (filter (fun f => Sql.eqb (fst f) (Some u)) fts).

Definition unique_uuids (conn : db) : Prop :=
  forall u, (uuid_count u (messages conn) <= 1)%nat.

(** The index and the table correspond one to one: row for row, with
    exactly one index row, holding the message's content, for a uuid that
    is in the table and none for a uuid that is not. *)
Definition bijection (conn : db) : Prop :=
  in_sync conn
  /\ (forall m u, In m (messages conn) -> m_uuid m = Some u ->
                  posting_count u (messages_fts conn) = 1%nat
                  /\ In (Some u, m_content m) (messages_fts conn))
  /\ (forall u, (forall m, In m (messages conn) -> m_uuid m <> Some u) ->
                posting_count u (messages_fts conn) = 0%nat).

(** The messages a file yields when its reading loop completes. *)
Definition retained (py_repr : pyval -> string) (f : list line)
  : list message :=
  match read_lines py_repr f [] [] with
  | Some (_, msgs) => msgs
  | None => []
  end.

(** The session summaries a file yields when its reading loop completes. *)
Definition summary (py_repr : pyval -> string) (f : list line) : session_map :=
  match read_lines py_repr f [] [] with
  | Some (session_data, _) => session_data
  | None => []
  end.

(** Whether a Python value is stored as the text [id]. *)
Definition stored_as (id : string) (v : pyval) : bool :=
  match Sql.bind_text v with
  | Some (Some s) => (s =? id)%string
  | _ => false
  end.



(** [first_ts <= last_ts] on a session row, in the order of strings. *)
Definition first_le_last (r : session_row) : bool :=
  match s_first_ts r, s_last_ts r with
  | Some a, Some b => String.leb a b
  | _, _ => false
  end.

(** A line the reading loop passes over: blank, not decodable, or a decoded
    object whose type is not accepted or whose [sessionId] is falsy (absent,
    empty, [null], ...). *)
Definition discarded (l : line) : bool :=
  match l with
  | Blank | Undecodable => true
  | Decoded (PDict fields) =>
      negb (in_entry_types (field_get fields "type" (PStr "")))
      || negb (truthy (field_get fields "sessionId" (PStr "")))
  | Decoded _ | ReadFailure => false
  end.

(** A turn of the reading loop that raises: the file cannot be read on, or
    a statement of the loop body fails on the decoded entry. *)
Definition raising (py_repr : pyval -> string) (l : line) : bool :=
  match l with
  | ReadFailure => true
  | Decoded entry =>
      match process_entry py_repr entry [] [] with
      | None => true
      | Some _ => false
      end
  | Blank | Undecodable => false
  end.

(** ** Sample inputs *)

Definition stats0 : stats := mk_stats 0 0 0 0.

Definition user_entry (session_id uuid : pyval) (timestamp content : string)
  : pyval :=
  PDict [("type", PStr "user"); ("sessionId", session_id); ("uuid", uuid);
         ("timestamp", PStr timestamp);
         ("message", PDict [("role", PStr "user"); ("content", PStr content)])].

Definition hello_entry : pyval :=
  user_entry (PStr "S1") (PStr "U1") "2024-01-01T00:00:00Z" "hello world".

Definition null_uuid_entry : pyval :=
  user_entry (PStr "S1") PNone "2024-01-01T00:00:00Z" "hello world".

Definition hello_row : message_row :=
  mk_message_row (Some "U1") (Some "S1") (Some "") (Some "user") (Some "user")
    (Some "hello world") (Some "2024-01-01T00:00:00Z") (Some "") (Some "").

Definition null_uuid_row : message_row :=
  mk_message_row None (Some "S1") (Some "") (Some "user") (Some "user")
    (Some "hello world") (Some "2024-01-01T00:00:00Z") (Some "") (Some "").

Definition session_S1 (n : Z) : session_row :=
  mk_session_row (Some "S1") (Some "") (Some "") (Some "")
    (Some "2024-01-01T00:00:00Z") (Some "2024-01-01T00:00:00Z") n.

Definition no_repr (v : pyval) : string := "".

Definition sample_blocks : list pyval :=
  [ PDict [("type", PStr "text"); ("text", PStr "first")];
    PDict [("type", PStr "tool_use"); ("name", PStr "Bash")];
    PDict [("type", PStr "tool_result"); ("content", PStr "ok")];
    PDict [("type", PStr "tool_use"); ("name", PStr "Bash")];
    PDict [("type", PStr "text"); ("text", PStr "last")] ].

Definition sample_payload : list (string * pyval) :=
  [("role", PStr "assistant"); ("model", PStr "m1");
   ("content", PList sample_blocks)].

(** Two events of one session, the later one first in the file. *)
Definition out_of_order_file : list line :=
  [Decoded (user_entry (PStr "S2") (PStr "U1") "2024-01-02T00:00:00Z" "later");
   Decoded (user_entry (PStr "S2") (PStr "U2") "2024-01-01T00:00:00Z" "earlier")].

(** The same two events in the order of their timestamps. *)
Definition in_order_file : list line :=
  [Decoded (user_entry (PStr "S2") (PStr "U2") "2024-01-01T00:00:00Z" "earlier");
   Decoded (user_entry (PStr "S2") (PStr "U1") "2024-01-02T00:00:00Z" "later")].

(** A small full-text engine for the examples: a row matches when its
    content contains the query, and ranks better the more often it does. *)
Fixpoint occurrences (q s : string) : nat :=
  match s with
  | EmptyString => 0
  | String _ s' => (if String.prefix q s then 1 else 0) + occurrences q s'
  end.

Definition word_engine : fts5 :=
  mk_fts5
    (fun q => Some (fun r => match snd r with
                             | Some c => (0 <? occurrences q c)%nat
                             | None => false
                             end))
    (fun q _ r => match snd r with
                  | Some c => (- inject_Z (Z.of_nat (occurrences q c)))%Q
                  | None => 0%Q
                  end).

Definition chat_row (uuid timestamp content : string) : message_row :=
  mk_message_row (Some uuid) (Some "S1") (Some "") (Some "user") (Some "user")
    (Some content) (Some timestamp) (Some "") (Some "").

(** Two messages that match [hello]; the older one matches it better. *)
Definition hello_db : db :=
  mk_db [session_S1 2]
    [chat_row "U1" "2024-01-02T00:00:00Z" "hello world";
     chat_row "U2" "2024-01-01T00:00:00Z" "hello hello hello"]
    [(Some "U1", Some "hello world"); (Some "U2", Some "hello hello hello")].

(** Two messages with the timestamps [t1] and [t2], both indexed. *)
Definition pair_db (u1 t1 c1 u2 t2 c2 : string) : db :=
  mk_db [] [chat_row u1 t1 c1; chat_row u2 t2 c2]
        [(Some u1, Some c1); (Some u2, Some c2)].

Definition hit_uuids (hits : option (list hit)) : option (list Sql.text) :=
  option_map (map (fun h => m_uuid (hit_message h))) hits.

(** ** The other commands *)

(** [ORDER BY last_ts DESC] *)
Definition by_last_ts_desc (a b : session_row) : bool :=
  Sql.leb (s_last_ts b) (s_last_ts a).

(** [SELECT ... FROM sessions ORDER BY last_ts DESC LIMIT ?], the query of
    [cmd_sessions] and of [list_sessions]. *)
Definition recent_sessions (limit : Z) (conn : db)
  : option (list session_row) :=
  Sql.limit limit (Sql.order_by by_last_ts_desc (sessions conn)).

Fixpoint spaces (n : nat) : string :=
  match n with
  | O => ""
  | S n' => String " " (spaces n')
  end.




Section Sessions.

Variable path_name : string -> string.






End Sessions.

(** [SELECT COUNT( * ) FROM messages WHERE type = ty] *)
Definition count_type (ty : string) (conn : db) : nat :=
  List.length (filter (fun m => Sql.eqb (m_type m) (Some ty)) (messages conn)).

Definition decimal_nat (n : nat) : string := decimal (Z.of_nat n).

(** [cmd_stats()] of [claude_history.py]: the three lines it prints, for the
    database file [db_path]. *)
Definition cmd_stats (db_path : string) (conn : db) : list string :=
  [("Database: " ++ db_path)%string;
   ("Sessions: " ++ decimal_nat (List.length (sessions conn)))%string;
   ("Messages: " ++ decimal_nat (List.length (messages conn))
    ++ " (user: " ++ decimal_nat (count_type "user" conn)
    ++ ", assistant: " ++ decimal_nat (count_type "assistant" conn)
    ++ ")")%string].

(** ** Further observations *)

(** The number a key denotes, for the keys that are numbers. *)
Definition key_value (k : pyval) : option Q :=
  match k with
  | PBool b => Some (inject_Z (bool_int b))
  | PInt z => Some (inject_Z z)
  | PFloat f => float_value f
  | _ => None
  end.

Definition is_float (v : pyval) : bool :=
  match v with
  | PFloat _ => true
  | _ => false
  end.

(** The retained events of the session filed under the dict key [k]. *)
Definition events_of (k : pyval) (msgs : list message) : list message :=
  filter (fun m => key_eqb k (msg_session_id m)) msgs.

(** No two keys of the dict are equal. *)
Fixpoint distinct_keys (d : session_map) : bool :=
  match d with
  | [] => true
  | (k, _) :: rest => negb (has_key k rest) && distinct_keys rest
  end.

(** The summary [v] filed under [k] describes the events of [k] among
    [msgs]: there is at least one, [first_ts] and [last_ts] are the
    timestamps of the first and of the last of them in file order, [count]
    is their number, and [project] is the same value as [cwd]. *)
Definition summarizes (msgs : list message) (k : pyval) (v : sdata) : Prop :=
  exists first rest,
    events_of k msgs = first :: rest
    /\ sd_first_ts v = msg_timestamp first
    /\ sd_last_ts v = msg_timestamp (last rest first)
    /\ sd_count v = Z.of_nat (List.length (first :: rest))
    /\ sd_project v = sd_cwd v.

(** The rows of the messages that can be bound, in order. *)
Definition bound_rows (msgs : list message) : list message_row :=
  flat_map (fun m => match bind_message m with
                     | Some row => [row]
                     | None => []
                     end) msgs.

(** The rows of [rows] whose uuid is in none of the rows before them,
    [seen] included; a [NULL] uuid is in no row. *)
Fixpoint first_occurrences (seen rows : list message_row)
  : list message_row :=
  match rows with
  | [] => []
  | r :: rest =>
      (if uuid_conflict r seen then [] else [r])
        ++ first_occurrences (seen ++ [r]) rest
  end.

(** A file whose session summaries cannot all be bound. *)
Definition unbindable_summary (kv : pyval * sdata) : bool :=
  match bind_session (fst kv) (snd kv) with
  | Some _ => false
  | None => true
  end.

Definition crashing (py_repr : pyval -> string) (f : list line) : bool :=
  match read_lines py_repr f [] [] with
  | Some (session_data, _) => existsb unbindable_summary session_data
  | None => false
  end.

(** Every message belongs to a stored session. *)
Definition references_ok (conn : db) : bool :=
  forallb (fun m => existsb (fun r => Sql.eqb (s_session_id r) (m_session_id m))
                            (sessions conn))
          (messages conn).

(** Every message has one of the three types. *)
Definition types_ok (conn : db) : bool :=
  forallb (fun m => existsb (fun ty => Sql.eqb (m_type m) (Some ty)) entry_types)
          (messages conn).

(** The number of session rows with the id [id]. *)
Definition session_id_count (id : string) (rows : list session_row) : nat :=
  List.length (filter (fun r => Sql.eqb (s_session_id r) (Some id)) rows).

Definition unique_sessions (conn : db) : Prop :=
  forall id, (session_id_count id (sessions conn) <= 1)%nat.

(** What a later pass keeps of a session row: everything but [last_ts] and
    the count, which does not go down. *)
Definition same_session (r r' : session_row) : Prop :=
  s_session_id r' = s_session_id r
  /\ s_project r' = s_project r
  /\ s_cwd r' = s_cwd r
  /\ s_git_branch r' = s_git_branch r
  /\ s_first_ts r' = s_first_ts r
  /\ s_message_count r <= s_message_count r'.



(** A block [extract_content] passes over. *)
Definition ignored_block (block : pyval) : bool :=
  negb (block_is "text" block) && negb (block_is "tool_use" block)
  && negb (block_is "tool_result" block).

(** A text block whose text is not a string. *)
Definition bad_text_block (block : pyval) : bool :=
  block_is "text" block
  && match block_field "text" block with
     | PStr _ => false
     | _ => true
     end.

(** When [extract_content] raises: on a truthy value that is not a dict,
    and on a block sequence with a text block whose text is not a string. *)
Definition extract_raises (message_obj : pyval) : bool :=
  truthy message_obj
  && match message_obj with
     | PDict fields =>
         match field_get fields "content" (PStr "") with
         | PList blocks => existsb bad_text_block blocks
         | _ => false
         end
     | _ => true
     end.

(** What the reading loop has gathered is consistent: the keys of the
    dict are distinct, every summary describes the events of its key, and
    every message is a retained event (accepted type, truthy session id)
    whose session has a summary. *)
Definition aggregated (session_data : session_map) (msgs : list message)
  : Prop :=
  distinct_keys session_data = true
  /\ (forall k v, In (k, v) session_data -> summarizes msgs k v)
  /\ (forall m, In m msgs ->
                has_key (msg_session_id m) session_data = true
                /\ truthy (msg_session_id m) = true
                /\ in_entry_types (msg_type m) = true).

(** A result of the driver with one more error counted. *)
Definition shift_error (r : option (db * stats)) : option (db * stats) :=
  option_map (fun cs => (fst cs, count_error (snd cs))) r.

(** [rows'] continues [rows]: the same sessions in the same places, each
    kept as [same_session] says, followed by new ones. *)
Definition sessions_extend (rows rows' : list session_row) : Prop :=
  exists kept added,
    rows' = kept ++ added /\ Forall2 same_session rows kept.

(** The sessions table has a row with the id [x]. *)
Definition has_session (x : Sql.text) (conn : db) : bool :=
  existsb (fun r => Sql.eqb (s_session_id r) x) (sessions conn).

(** Every session row has an id. *)
Definition ids_ok (conn : db) : bool :=
  forallb (fun r => match s_session_id r with
                    | Some _ => true
                    | None => false
                    end) (sessions conn).

(** The shape of a database that only the indexer has written to. *)
Definition well_formed (conn : db) : Prop :=
  in_sync conn /\ unique_uuids conn /\ unique_sessions conn
  /\ references_ok conn = true /\ types_ok conn = true /\ ids_ok conn = true.

(** [conn'] continues [conn]: the message rows and the index rows of
    [conn] are still there, in their places and unchanged, new ones come
    after them, and the sessions are continued as [sessions_extend] says. *)
Definition db_extends (conn conn' : db) : Prop :=
  (exists added, messages conn' = messages conn ++ added
                 /\ messages_fts conn' = messages_fts conn ++ map fts_of added)
  /\ sessions_extend (sessions conn) (sessions conn').




(** *** The events of a file, read off its lines *)

(** The [sessionId] and the [timestamp] of a line that is an event: a
    decoded object of an accepted type whose [sessionId] is truthy. *)
Definition event (l : line) : option (pyval * pyval) :=
  match l with
  | Decoded (PDict fields) =>
      let session_id := field_get fields "sessionId" (PStr "") in
      if in_entry_types (field_get fields "type" (PStr ""))
         && truthy session_id
      then Some (session_id, field_get fields "timestamp" (PStr ""))
      else None
  | _ => None
  end.

Definition events (f : list line) : list (pyval * pyval) :=
  flat_map (fun l => match event l with
                     | Some e => [e]
                     | None => []
                     end) f.

(** The timestamps of the events of the file whose [sessionId] equals the
    dict key [k], in file order. *)
Definition session_timestamps (k : pyval) (f : list line) : list pyval :=
  map snd (filter (fun e => key_eqb k (fst e)) (events f)).

(** No event of the file has a float as its [sessionId]. *)
Definition plain_ids (f : list line) : bool :=
  forallb (fun e => negb (is_float (fst e))) (events f).

(** *** Session rows across the writes of a pass *)


(** The rows a pass sends to the sessions table, in the order of the
    dict. *)
Definition bound_summaries (d : session_map) : list session_row :=
  flat_map (fun kv => match bind_session (fst kv) (snd kv) with
                      | Some row => [row]
                      | None => []
                      end) d.

Definition incoming_rows (py_repr : pyval -> string) (f : list line)
  : list session_row :=
  bound_summaries (summary py_repr f).



(** The dict key an event with the session id [sid] is counted under: the
    session id of the first event of the file that equals it as a key. *)
Definition filed_under (f : list line) (sid : pyval) : pyval :=
  match find (fun e => key_eqb (fst e) sid) (events f) with
  | Some e => fst e
  | None => sid
  end.

(** The number of events of the file counted for the session stored as
    [id]. *)
Definition event_count (id : string) (f : list line) : Z :=
  Z.of_nat (List.length (filter (fun e => stored_as id (filed_under f (fst e)))
                                (events f))).


(** The [last_ts] values that the writes [later] send for the session of
    the row [x]. *)
Definition sent_after (x : session_row) (later : list session_row)
  : list Sql.text :=
  map s_last_ts
      (filter (fun row => Sql.eqb (s_session_id x) (s_session_id row)) later).

(** The [last_ts] of [x] once these writes are done: the greatest of its
    own and of those sent, [NULL] as soon as one of them is. *)
Definition latest (x : session_row) (later : list session_row) : Sql.text :=
  fold_left Sql.max (sent_after x later) (s_last_ts x).

(** [first_ts <= last_ts] on the row [x] once the writes [later] are
    done. *)
Definition ordered_with (x : session_row) (later : list session_row) : bool :=
  match s_first_ts x, latest x later with
  | Some a, Some b => String.leb a b
  | _, _ => false
  end.

(** * Properties *)

(** Splits a hypothesis [x <- c ;; ... = Some _] along the bindings that
    succeeded. *)
Ltac invert_bind H :=
  repeat match type of H with
         | bind ?c _ = Some _ => destruct c; simpl in H; [|discriminate]
         end.

(** ** Strings *)

Arguments take : simpl never.

Lemma take_length_le (n : nat) (s : string) :
  (String.length s <= n)%nat -> take n s = s.
Proof.
  unfold take. revert n.
  induction s as [|c s IH]; intros [|n] H; simpl in *; try reflexivity; try lia.
  f_equal. apply IH. lia.
Qed.

Lemma take_length_gt (n : nat) (s : string) :
  (n < String.length s)%nat -> String.length (take n s) = n.
Proof.
  unfold take. revert n.
  induction s as [|c s IH]; intros [|n] H; simpl in *; try reflexivity; try lia.
  f_equal. apply IH. lia.
Qed.

Lemma take_prefix (n : nat) (s : string) : String.prefix (take n s) s = true.
Proof.
  unfold take. revert n.
  induction s as [|c s IH]; intros [|n]; simpl; try reflexivity.
  destruct (ascii_dec c c) as [_|Hc]; [apply IH | now elim Hc].
Qed.

(** ** [extract_content] *)

Section NormalizeFacts.

Variable py_repr : pyval -> string.

Lemma strings_of_app (l1 l2 : list pyval) (s1 s2 : list string) :
  strings_of l1 = Some s1 -> strings_of l2 = Some s2 ->
  strings_of (l1 ++ l2) = Some (s1 ++ s2).
Proof.
  revert s1. induction l1 as [|v l1 IH]; intros s1 H1 H2; simpl in *.
  - injection H1 as <-. exact H2.
  - destruct v; try discriminate.
    destruct (strings_of l1) as [ss|] eqn:E; simpl in H1; try discriminate.
    injection H1 as <-. rewrite (IH ss eq_refl H2). reflexivity.
Qed.

Lemma eq_str_excl (v : pyval) (a b : string) :
  a <> b -> eq_str v a = true -> eq_str v b = false.
Proof.
  destruct v; simpl; try discriminate.
  intros Hab Ha. apply String.eqb_eq in Ha. subst.
  now apply String.eqb_neq.
Qed.

(** The loop adds to [text_parts] the contributions of the blocks, in block
    order, and to [tool_names] the names of the invoked tools. *)
Lemma scan_blocks_spec (blocks text_parts tool_names : list pyval)
  (done : list string) :
  Forall text_block_ok blocks ->
  strings_of text_parts = Some done ->
  exists parts,
    scan_blocks py_repr blocks text_parts tool_names
    = (parts, tool_names ++ normalize_tools blocks)
    /\ strings_of parts
       = Some (done ++ flat_map (text_of_block py_repr) blocks).
Proof.
  intros Hok. revert text_parts tool_names done.
  induction Hok as [|block blocks Hb _ IH]; intros tp tn done Hd; simpl.
  - exists tp. now rewrite !app_nil_r.
  - unfold normalize_tools in *. simpl.
    unfold text_of_block, tool_of_block, text_block_ok in *.
    destruct block as [| | | | |items|fields]; simpl in *;
      try (apply IH; exact Hd).
    destruct (eq_str (field_get fields "type" PNone) "text") eqn:Et.
    + assert (Hne : "text" <> "tool_use") by discriminate.
      rewrite (eq_str_excl _ _ _ Hne Et).
      destruct (Hb eq_refl) as [s Hs]. rewrite Hs. simpl.
      destruct (IH (tp ++ [PStr s]) tn (done ++ [s])) as [parts [E1 E2]].
      { now apply strings_of_app. }
      exists parts. split; [exact E1|]. now rewrite E2, <- app_assoc.
    + destruct (eq_str (field_get fields "type" PNone) "tool_use") eqn:Eu.
      * assert (Hne : "tool_use" <> "tool_result") by discriminate.
        rewrite (eq_str_excl _ _ _ Hne Eu).
        simpl.
        destruct (IH tp (tn ++ [field_get fields "name" (PStr "")]) done Hd)
          as [parts [E1 E2]].
        exists parts. split; [|exact E2]. now rewrite E1, <- app_assoc.
      * destruct (eq_str (field_get fields "type" PNone) "tool_result") eqn:Er.
        -- simpl.
           set (c := take 500 (py_str py_repr (field_get fields "content" (PStr "")))).
           destruct (IH (tp ++ [PStr c]) tn (done ++ [c])) as [parts [E1 E2]].
           { now apply strings_of_app. }
           exists parts. split; [exact E1|]. now rewrite E2, <- app_assoc.
        -- simpl. apply IH. exact Hd.
Qed.

End NormalizeFacts.

(** C4, amended.  For every payload whose content is a block sequence in
    which the text of each text block is a string (a text block without a
    text counts for the empty string), [extract_content] returns as text
    the contributions of the text blocks (their text) and of the
    tool-result blocks (their content coerced to a string, cut to exactly
    its first 500 characters when it is longer), in block order and joined
    by newlines; a tool-invocation block adds nothing to the text and adds
    its name to the returned list of tool names, in block order and with
    repetitions kept. *)
Theorem C4_normalize_block_sequence (py_repr : pyval -> string)
  (fields : list (string * pyval)) (blocks : list pyval) :
  field_get fields "content" (PStr "") = PList blocks ->
  Forall text_block_ok blocks ->
  extract_content py_repr (PDict fields)
  = Some (normalize_text py_repr blocks,
          field_get fields "model" (PStr ""),
          normalize_tools blocks)
  /\ (forall block s,
        block_is "text" block = true -> block_field "text" block = PStr s ->
        text_of_block py_repr block = [s] /\ tool_of_block block = [])
  /\ (forall block,
        block_is "tool_result" block = true ->
        let c := py_str py_repr (block_field "content" block) in
        text_of_block py_repr block = [take 500 c]
        /\ tool_of_block block = []
        /\ String.prefix (take 500 c) c = true
        /\ ((500 < String.length c)%nat ->
            String.length (take 500 c) = 500%nat)
        /\ ((String.length c <= 500)%nat -> take 500 c = c))
  /\ (forall block,
        block_is "tool_use" block = true ->
        text_of_block py_repr block = []
        /\ tool_of_block block = [block_field "name" block]).
Proof.
  intros Hc Hok. split; [|split; [|split]].
  - unfold extract_content.
    assert (Ht : truthy (PDict fields) = true).
    { destruct fields; [discriminate Hc | reflexivity]. }
    rewrite Ht. simpl. rewrite Hc.
    destruct (scan_blocks_spec py_repr blocks [] [] [] Hok eq_refl)
      as [parts [E1 E2]].
    rewrite E1. unfold join. rewrite E2. reflexivity.
  - intros block s Ht Hs. unfold text_of_block, tool_of_block.
    rewrite Ht, Hs. split; [reflexivity|].
    destruct block; try discriminate. simpl in *.
    assert (Hne : "text" <> "tool_use") by discriminate.
    now rewrite (eq_str_excl _ _ _ Hne Ht).
  - intros block Hr c. unfold text_of_block, tool_of_block.
    destruct block; try discriminate. simpl in Hr.
    assert (Hne1 : "tool_result" <> "text") by discriminate.
    assert (Hne2 : "tool_result" <> "tool_use") by discriminate.
    simpl. rewrite (eq_str_excl _ _ _ Hne1 Hr), (eq_str_excl _ _ _ Hne2 Hr), Hr.
    repeat split.
    + apply take_prefix.
    + apply take_length_gt.
    + apply take_length_le.
  - intros block Hu. unfold text_of_block, tool_of_block.
    destruct block; try discriminate. simpl in Hu.
    assert (Hne1 : "tool_use" <> "text") by discriminate.
    assert (Hne2 : "tool_use" <> "tool_result") by discriminate.
    simpl. now rewrite (eq_str_excl _ _ _ Hne1 Hu), (eq_str_excl _ _ _ Hne2 Hu), Hu.
Qed.

(** ** The messages table and its index *)

Lemma sql_eqb_eq (a b : Sql.text) :
  Sql.eqb a b = true <-> exists u, a = Some u /\ b = Some u.
Proof.
  destruct a as [x|], b as [y|]; simpl; split; try discriminate.
  - intros H. apply String.eqb_eq in H. subst. now exists y.
  - intros [u [[= ->] [= ->]]]. apply String.eqb_refl.
  - intros [u [_ H]]. discriminate.
  - intros [u [H _]]. discriminate.
  - intros [u [H _]]. discriminate.
Qed.

Lemma uuid_conflict_iff (row : message_row) (rows : list message_row) :
  uuid_conflict row rows = true
  <-> exists u r, m_uuid row = Some u /\ In r rows /\ m_uuid r = Some u.
Proof.
  unfold uuid_conflict. rewrite existsb_exists. split.
  - intros [r [Hin He]]. apply sql_eqb_eq in He as [u [H1 H2]].
    now exists u, r.
  - intros [u [r [H1 [H2 H3]]]]. exists r. split; [exact H2|].
    apply sql_eqb_eq. now exists u.
Qed.

Lemma uuid_conflict_count (row : message_row) (rows : list message_row)
  (u : string) :
  m_uuid row = Some u ->
  uuid_conflict row rows = false -> uuid_count u rows = 0%nat.
Proof.
  intros Hu. unfold uuid_conflict, uuid_count. rewrite Hu.
  induction rows as [|r rows IH]; simpl; [reflexivity|].
  destruct (Sql.eqb (m_uuid r) (Some u)); simpl; [discriminate | exact IH].
Qed.

Lemma uuid_count_app (u : string) (l1 l2 : list message_row) :
  uuid_count u (l1 ++ l2) = (uuid_count u l1 + uuid_count u l2)%nat.
Proof. unfold uuid_count. now rewrite filter_app, length_app. Qed.

Lemma posting_count_map (u : string) (rows : list message_row) :
  posting_count u (map fts_of rows) = uuid_count u rows.
Proof.
  unfold posting_count, uuid_count.
  induction rows as [|r rows IH]; simpl; [reflexivity|].
  destruct (Sql.eqb (m_uuid r) (Some u)); simpl; now rewrite IH.
Qed.

(** What [INSERT OR IGNORE] does, by cases on the key check. *)
Lemma insert_or_ignore_cases (row : message_row) (conn : db) :
  (uuid_conflict row (messages conn) = true
   /\ insert_or_ignore row conn = conn)
  \/ (uuid_conflict row (messages conn) = false
      /\ insert_or_ignore row conn
         = mk_db (sessions conn) (messages conn ++ [row])
                 (messages_fts conn ++ [fts_of row])).
Proof.
  unfold insert_or_ignore.
  destruct (uuid_conflict row (messages conn)); [left | right]; auto.
Qed.

Lemma insert_or_ignore_sync (row : message_row) (conn : db) :
  in_sync conn -> in_sync (insert_or_ignore row conn).
Proof.
  unfold in_sync. intros H.
  destruct (insert_or_ignore_cases row conn) as [[_ ->]|[_ ->]]; [exact H|].
  simpl. now rewrite map_app, H.
Qed.

Lemma insert_or_ignore_unique (row : message_row) (conn : db) :
  unique_uuids conn -> unique_uuids (insert_or_ignore row conn).
Proof.
  unfold unique_uuids. intros H u.
  destruct (insert_or_ignore_cases row conn) as [[_ ->]|[Hc ->]]; [apply H|].
  simpl. rewrite uuid_count_app. unfold uuid_count at 2. simpl.
  destruct (Sql.eqb (m_uuid row) (Some u)) eqn:E; simpl.
  - apply sql_eqb_eq in E as [v [Hv [= <-]]].
    rewrite (uuid_conflict_count row _ u Hv Hc). lia.
  - specialize (H u). lia.
Qed.

Lemma insert_or_ignore_sessions (row : message_row) (conn : db) :
  sessions (insert_or_ignore row conn) = sessions conn.
Proof.
  destruct (insert_or_ignore_cases row conn) as [[_ ->]|[_ ->]]; reflexivity.
Qed.

(** A uuid once stored stays stored. *)
Lemma insert_or_ignore_keeps (row row' : message_row) (conn : db) :
  uuid_conflict row' (messages conn) = true ->
  uuid_conflict row' (messages (insert_or_ignore row conn)) = true.
Proof.
  intros H.
  destruct (insert_or_ignore_cases row conn) as [[_ ->]|[_ ->]]; [exact H|].
  simpl. unfold uuid_conflict in *. rewrite existsb_app, H. reflexivity.
Qed.

(** After the statement, a non-NULL uuid is in the table. *)
Lemma insert_or_ignore_stores (row : message_row) (conn : db) (u : string) :
  m_uuid row = Some u ->
  uuid_conflict row (messages (insert_or_ignore row conn)) = true.
Proof.
  intros Hu.
  destruct (insert_or_ignore_cases row conn) as [[Hc ->]|[_ ->]]; [exact Hc|].
  simpl. unfold uuid_conflict. rewrite existsb_app. simpl.
  rewrite Hu. simpl. rewrite String.eqb_refl. apply orb_true_r.
Qed.

Lemma insert_message_fst (m : message) (conn : db) (st : stats) :
  fst (insert_message m conn st)
  = match bind_message m with
    | Some row => insert_or_ignore row conn
    | None => conn
    end.
Proof. unfold insert_message. now destruct (bind_message m). Qed.

Lemma insert_messages_cons (m : message) (msgs : list message) (conn : db)
  (st : stats) :
  insert_messages (m :: msgs) conn st
  = insert_messages msgs (fst (insert_message m conn st))
                    (snd (insert_message m conn st)).
Proof. simpl. now destruct (insert_message m conn st). Qed.

(** An invariant of [INSERT OR IGNORE] is an invariant of the loop. *)
Lemma insert_messages_inv (P : db -> Prop) :
  (forall row conn, P conn -> P (insert_or_ignore row conn)) ->
  forall msgs conn st, P conn -> P (fst (insert_messages msgs conn st)).
Proof.
  intros Hstep msgs.
  induction msgs as [|m msgs IH]; intros conn st HP; [exact HP|].
  rewrite insert_messages_cons. apply IH. rewrite insert_message_fst.
  destruct (bind_message m); [now apply Hstep | exact HP].
Qed.

Lemma insert_messages_sessions (msgs : list message) (conn : db) (st : stats) :
  sessions (fst (insert_messages msgs conn st)) = sessions conn.
Proof.
  apply (insert_messages_inv (fun c => sessions c = sessions conn));
    [|reflexivity].
  intros row c H. now rewrite insert_or_ignore_sessions.
Qed.

Lemma upsert_session_messages (row : session_row) (conn : db) :
  messages (upsert_session row conn) = messages conn
  /\ messages_fts (upsert_session row conn) = messages_fts conn.
Proof.
  unfold upsert_session.
  destruct (session_conflict row (sessions conn)); split; reflexivity.
Qed.

Lemma insert_sessions_messages (items : session_map) (conn conn' : db)
  (st st' : stats) :
  insert_sessions items conn st = Some (conn', st') ->
  messages conn' = messages conn /\ messages_fts conn' = messages_fts conn.
Proof.
  revert conn st. induction items as [|[sid v] items IH]; intros conn st H.
  - injection H as <- <-. split; reflexivity.
  - simpl in H. destruct (bind_session sid v) as [row|]; [|discriminate].
    simpl in H. apply IH in H as [H1 H2].
    destruct (upsert_session_messages row conn) as [E1 E2].
    split; congruence.
Qed.

Section IndexFacts.

Variable py_repr : pyval -> string.

(** [index_jsonl], by cases on how the reading loop ends. *)
Lemma index_jsonl_cases (f : list line) (conn conn' : db) (st st' : stats) :
  index_jsonl py_repr f conn st = Some (conn', st') ->
  (read_lines py_repr f [] [] = None /\ conn' = conn /\ st' = count_error st)
  \/ (exists session_data msgs conn1 st1,
        read_lines py_repr f [] [] = Some (session_data, msgs)
        /\ insert_sessions session_data conn st = Some (conn1, st1)
        /\ conn' = fst (insert_messages msgs conn1 st1)
        /\ st' = count_file (snd (insert_messages msgs conn1 st1))).
Proof.
  unfold index_jsonl. intros H.
  destruct (read_lines py_repr f [] []) as [[session_data msgs]|].
  - right.
    destruct (insert_sessions session_data conn st) as [[conn1 st1]|] eqn:E;
      [|discriminate].
    simpl in H. destruct (insert_messages msgs conn1 st1) as [conn2 st2] eqn:E2.
    injection H as <- <-. exists session_data, msgs, conn1, st1.
    rewrite E2. repeat split. exact E.
  - left. injection H as <- <-. repeat split.
Qed.

(** A property of the messages table and its index that [INSERT OR IGNORE]
    keeps is kept by a whole indexing pass. *)
Lemma index_jsonl_inv (P : db -> Prop) :
  (forall c c', messages c = messages c' -> messages_fts c = messages_fts c' ->
                P c -> P c') ->
  (forall row c, P c -> P (insert_or_ignore row c)) ->
  forall f conn conn' st st',
    index_jsonl py_repr f conn st = Some (conn', st') -> P conn -> P conn'.
Proof.
  intros Hext Hstep f conn conn' st st' H HP.
  apply index_jsonl_cases in H
    as [[_ [-> _]]|[sd [msgs [conn1 [st1 [_ [Hs [-> _]]]]]]]]; [exact HP|].
  apply insert_messages_inv; [exact Hstep|].
  apply insert_sessions_messages in Hs as [E1 E2].
  apply (Hext conn); congruence.
Qed.

Lemma index_files_inv (P : db -> Prop) :
  (forall c c', messages c = messages c' -> messages_fts c = messages_fts c' ->
                P c -> P c') ->
  (forall row c, P c -> P (insert_or_ignore row c)) ->
  forall files conn conn' st st',
    index_files py_repr files conn st = Some (conn', st') -> P conn -> P conn'.
Proof.
  intros Hext Hstep files.
  induction files as [|f files IH]; intros conn conn' st st' H HP.
  - now injection H as <- <-.
  - simpl in H.
    destruct (index_jsonl py_repr f conn st) as [[c1 s1]|] eqn:E;
      [|discriminate].
    simpl in H. apply (IH _ _ _ _ H).
    apply (index_jsonl_inv P Hext Hstep _ _ _ _ _ E HP).
Qed.

Lemma in_sync_ext (c c' : db) :
  messages c = messages c' -> messages_fts c = messages_fts c' ->
  in_sync c -> in_sync c'.
Proof. unfold in_sync. congruence. Qed.

Lemma unique_uuids_ext (c c' : db) :
  messages c = messages c' -> messages_fts c = messages_fts c' ->
  unique_uuids c -> unique_uuids c'.
Proof. unfold unique_uuids. intros E _ H u. rewrite <- E. apply H. Qed.

End IndexFacts.

(** ** The index and the table *)

(** What is stored as [NULL]: [None] and [NaN]. *)
Lemma bind_text_null (v : pyval) :
  Sql.bind_text v = Some None <-> v = PNone \/ v = PFloat FNaN.
Proof.
  split.
  - destruct v as [| |z|f| | |]; simpl; try discriminate; auto.
    + destruct (Sql.int64 z); discriminate.
    + destruct f; try discriminate; auto.
  - now intros [->| ->].
Qed.

Lemma bind_message_uuid (m : message) (row : message_row) :
  bind_message m = Some row -> Sql.bind_text (msg_uuid m) = Some (m_uuid row).
Proof.
  unfold bind_message. intros H. invert_bind H. now injection H as <-.
Qed.


Lemma uuid_count_in (m : message_row) (u : string) (rows : list message_row) :
  In m rows -> m_uuid m = Some u -> (1 <= uuid_count u rows)%nat.
Proof.
  intros Hin Hu. unfold uuid_count.
  induction rows as [|r rows IH]; [destruct Hin|]. simpl.
  destruct Hin as [->|Hin].
  - rewrite Hu. simpl. rewrite String.eqb_refl. simpl. lia.
  - specialize (IH Hin). destruct (Sql.eqb (m_uuid r) (Some u)); simpl; lia.
Qed.

Lemma uuid_count_absent (u : string) (rows : list message_row) :
  (forall m, In m rows -> m_uuid m <> Some u) -> uuid_count u rows = 0%nat.
Proof.
  unfold uuid_count. induction rows as [|r rows IH]; intros H; [reflexivity|].
  simpl. destruct (Sql.eqb (m_uuid r) (Some u)) eqn:E.
  - apply sql_eqb_eq in E as [v [Hv [= <-]]].
    now elim (H r (or_introl eq_refl)).
  - apply IH. intros m Hm. apply H. now right.
Qed.

Lemma bijection_intro (conn : db) :
  in_sync conn -> unique_uuids conn -> bijection conn.
Proof.
  intros Hs Hu. split; [exact Hs|]. split.
  - intros m u Hin Hm. rewrite Hs, posting_count_map. split.
    + assert (H1 := uuid_count_in m u _ Hin Hm). specialize (Hu u). lia.
    + apply in_map_iff. exists m. split; [|exact Hin].
      unfold fts_of. now rewrite Hm.
  - intros u Habs. rewrite Hs, posting_count_map.
    now apply uuid_count_absent.
Qed.

(** C2.  After any sequence of message inserts, and after any sequence of
    indexing passes on a fresh database (the same file may occur any number
    of times), the full-text index is in bijection with the messages table:
    it mirrors the table row for row, a uuid of the table has exactly one
    index row, which holds the message's content, and a uuid that is not in
    the table has none.  A single insert writes to the index exactly when
    it adds a row to the table, and does neither when the uuid is already
    there. *)
Theorem C2_index_bijection (py_repr : pyval -> string) :
  (forall msgs st, bijection (fst (insert_messages msgs init_db st)))
  /\ (forall files st,
         match index_files py_repr files init_db st with
         | Some (conn, _) => bijection conn
         | None => True
         end)
  /\ (forall row conn,
         let conn' := insert_or_ignore row conn in
         (messages_fts conn' = messages_fts conn ++ [fts_of row]
          <-> messages conn' = messages conn ++ [row])
         /\ (messages_fts conn' = messages_fts conn
             <-> messages conn' = messages conn)
         /\ (messages_fts conn' = messages_fts conn ++ [fts_of row]
             \/ messages_fts conn' = messages_fts conn)
         /\ ((exists u r, m_uuid row = Some u /\ In r (messages conn)
                          /\ m_uuid r = Some u) ->
             conn' = conn)).
Proof.
  assert (Hs0 : in_sync init_db) by reflexivity.
  assert (Hu0 : unique_uuids init_db).
  { intros u. unfold uuid_count. simpl. lia. }
  split; [|split].
  - intros msgs st. apply bijection_intro.
    + exact (insert_messages_inv in_sync insert_or_ignore_sync
               msgs init_db st Hs0).
    + exact (insert_messages_inv unique_uuids insert_or_ignore_unique
               msgs init_db st Hu0).
  - intros files st.
    destruct (index_files py_repr files init_db st) as [[conn st']|] eqn:E;
      [|exact I].
    apply bijection_intro.
    + exact (index_files_inv py_repr in_sync in_sync_ext
               insert_or_ignore_sync _ _ _ _ _ E Hs0).
    + exact (index_files_inv py_repr unique_uuids unique_uuids_ext
               insert_or_ignore_unique _ _ _ _ _ E Hu0).
  - intros row conn conn'. subst conn'.
    assert (Hlen : forall (A : Type) (l : list A) (a : A), l <> l ++ [a]).
    { intros A l a H. apply (f_equal (@List.length _)) in H.
      rewrite length_app in H. simpl in H. lia. }
    destruct (insert_or_ignore_cases row conn) as [[Hc ->]|[Hc ->]]; simpl.
    + repeat split; auto; intros H; now apply Hlen in H.
    + repeat split; auto.
      * intros H. symmetry in H. now apply Hlen in H.
      * intros H. symmetry in H. now apply Hlen in H.
      * intros H. apply uuid_conflict_iff in H. congruence.
Qed.

(** C7.  Re-inserting a message whose uuid is already in the messages table
    changes nothing: the statement completes, is counted as a message, and
    leaves every table, hence the stored row, as it was, whatever the other
    fields of the incoming message are.  A message one of whose fields
    cannot be bound is dropped by the handler of the loop, and the store is
    unchanged as well. *)
Theorem C7_existing_uuid_noop (m : message) (conn : db) (st : stats)
  (u : string) (stored : message_row) :
  Sql.bind_text (msg_uuid m) = Some (Some u) ->
  In stored (messages conn) ->
  m_uuid stored = Some u ->
  fst (insert_message m conn st) = conn
  /\ In stored (messages (fst (insert_message m conn st)))
  /\ (forall row, bind_message m = Some row ->
                  insert_or_ignore row conn = conn
                  /\ insert_message m conn st = (conn, count_message st)).
Proof.
  intros Hu Hin Hs.
  assert (Hrow : forall row, bind_message m = Some row ->
                             insert_or_ignore row conn = conn).
  { intros row Hb.
    assert (Hr := bind_message_uuid m row Hb). rewrite Hu in Hr.
    injection Hr as Hr.
    destruct (insert_or_ignore_cases row conn) as [[_ E]|[Hc _]]; [exact E|].
    assert (Hc' : uuid_conflict row (messages conn) = true).
    { apply uuid_conflict_iff. now exists u, stored. }
    congruence. }
  assert (Hfst : fst (insert_message m conn st) = conn).
  { rewrite insert_message_fst.
    destruct (bind_message m) as [row|] eqn:Hb; [now apply Hrow | reflexivity]. }
  split; [exact Hfst|]. split; [now rewrite Hfst|].
  intros row Hb. split; [now apply Hrow|].
  unfold insert_message. rewrite Hb. now rewrite (Hrow row Hb).
Qed.

(** ** Re-indexing a file *)

(** A loop all of whose messages are already stored changes nothing. *)
Lemma insert_messages_noop (msgs : list message) (conn : db) (st : stats) :
  (forall m row, In m msgs -> bind_message m = Some row ->
                 uuid_conflict row (messages conn) = true) ->
  fst (insert_messages msgs conn st) = conn.
Proof.
  revert st. induction msgs as [|m msgs IH]; intros st H; [reflexivity|].
  rewrite insert_messages_cons.
  assert (E : fst (insert_message m conn st) = conn).
  { rewrite insert_message_fst.
    destruct (bind_message m) as [row|] eqn:Hb; [|reflexivity].
    destruct (insert_or_ignore_cases row conn) as [[_ E]|[Hc _]]; [exact E|].
    rewrite (H m row (or_introl eq_refl) Hb) in Hc. discriminate. }
  rewrite E. apply IH. intros m' row Hin. apply H. now right.
Qed.

(** After the loop, every message that could be bound and has a uuid is in
    the table. *)
Lemma insert_messages_stores (msgs : list message) (conn : db) (st : stats)
  (m : message) (row : message_row) (u : string) :
  In m msgs -> bind_message m = Some row -> m_uuid row = Some u ->
  uuid_conflict row (messages (fst (insert_messages msgs conn st))) = true.
Proof.
  intros Hin Hb Hu. revert conn st.
  induction msgs as [|m' msgs IH]; intros conn st; [destruct Hin|].
  rewrite insert_messages_cons. destruct Hin as [->|Hin]; [|now apply IH].
  apply (insert_messages_inv
           (fun c => uuid_conflict row (messages c) = true)).
  - intros row' c. apply insert_or_ignore_keeps.
  - rewrite insert_message_fst, Hb. now apply (insert_or_ignore_stores _ _ u).
Qed.

(** ** The reading loop *)

Section ReadFacts.

Variable py_repr : pyval -> string.

Lemma process_entry_discarded (entry : pyval) (session_data : session_map)
  (msgs : list message) :
  discarded (Decoded entry) = true ->
  process_entry py_repr entry session_data msgs = Some (session_data, msgs).
Proof.
  destruct entry; simpl; try discriminate. intros H.
  unfold process_entry. simpl.
  destruct (in_entry_types (field_get fields "type" (PStr ""))); simpl in *;
    [|reflexivity].
  now rewrite H.
Qed.

(** A discarded line can be taken out of the file without any effect on
    what the reading loop computes from the other lines. *)
Lemma read_lines_discarded (before after : list line) (l : line)
  (session_data : session_map) (msgs : list message) :
  discarded l = true ->
  read_lines py_repr (before ++ l :: after) session_data msgs
  = read_lines py_repr (before ++ after) session_data msgs.
Proof.
  intros Hd. revert session_data msgs.
  induction before as [|l' before IH]; intros session_data msgs; simpl.
  - destruct l as [| |entry|]; try reflexivity; [|discriminate].
    now rewrite (process_entry_discarded entry session_data msgs Hd).
  - destruct l' as [| |entry'|]; try apply IH; [|reflexivity].
    destruct (process_entry py_repr entry' session_data msgs)
      as [[sd' msgs']|]; simpl; [apply IH | reflexivity].
Qed.

End ReadFacts.

Section Raising.

Variable py_repr : pyval -> string.

(** Whether the loop body raises on an entry does not depend on what the
    loop has gathered so far. *)
Lemma process_entry_raises (entry : pyval) (session_data : session_map)
  (msgs : list message) :
  process_entry py_repr entry session_data msgs = None
  <-> process_entry py_repr entry [] [] = None.
Proof.
  unfold process_entry.
  destruct (get entry "type" (PStr "")) as [entry_type|]; simpl;
    [|tauto].
  destruct (in_entry_types entry_type); simpl; [|split; discriminate].
  destruct (get entry "sessionId" (PStr "")) as [session_id|]; simpl;
    [|tauto].
  destruct (truthy session_id); simpl; [|split; discriminate].
  destruct (hashable session_id); simpl; [|tauto].
  destruct (get entry "cwd" (PStr "")); simpl; [|tauto].
  destruct (get entry "gitBranch" (PStr "")); simpl; [|tauto].
  destruct (get entry "timestamp" (PStr "")); simpl; [|tauto].
  destruct (get entry "message" (PDict [])) as [msg_obj|]; simpl; [|tauto].
  destruct (extract_content py_repr msg_obj) as [[[content model] tool_names]|];
    simpl; [|tauto].
  destruct (get entry "uuid" (PStr "")); simpl; [|tauto].
  destruct (get entry "parentUuid" (PStr "")); simpl; [|tauto].
  destruct (get msg_obj "role" (PStr "")); simpl; [|tauto].
  destruct (join "," tool_names); simpl; [split; discriminate | tauto].
Qed.

(** A file with a raising line is given up, wherever the line stands. *)
Lemma read_lines_raising (before after : list line) (bad : line)
  (session_data : session_map) (msgs : list message) :
  raising py_repr bad = true ->
  read_lines py_repr (before ++ bad :: after) session_data msgs = None.
Proof.
  intros Hbad. revert session_data msgs.
  induction before as [|l before IH]; intros session_data msgs; simpl.
  - destruct bad as [| |entry|]; try discriminate; [|reflexivity].
    simpl in Hbad.
    destruct (process_entry py_repr entry [] []) eqn:E; [discriminate|].
    apply (process_entry_raises entry session_data msgs) in E.
    now rewrite E.
  - destruct l as [| |entry|]; try apply IH; [|reflexivity].
    destruct (process_entry py_repr entry session_data msgs) as [[sd m]|];
      simpl; [apply IH | reflexivity].
Qed.

(** The reading loop gives a file up only at a raising line. *)
Lemma read_lines_none (f : list line) (session_data : session_map)
  (msgs : list message) :
  read_lines py_repr f session_data msgs = None ->
  exists before bad after,
    f = before ++ bad :: after /\ raising py_repr bad = true.
Proof.
  revert session_data msgs.
  induction f as [|l f IH]; intros session_data msgs H; [discriminate|].
  assert (Hrest : forall sd m, read_lines py_repr f sd m = None ->
            exists before bad after,
              l :: f = before ++ bad :: after /\ raising py_repr bad = true).
  { intros sd m Hn. destruct (IH sd m Hn) as [before [bad [after [-> Hb]]]].
    now exists (l :: before), bad, after. }
  destruct l as [| |entry|]; simpl in H; try (now apply (Hrest _ _ H)).
  - destruct (process_entry py_repr entry session_data msgs)
      as [[sd m]|] eqn:E; simpl in H; [now apply (Hrest _ _ H)|].
    exists [], (Decoded entry), f. split; [reflexivity|].
    simpl. apply process_entry_raises in E. now rewrite E.
  - now exists [], ReadFailure, f.
Qed.

(** C10.  When the reading loop of a file raises, which it does exactly at
    a line where the file cannot be read on or where a statement of the
    loop fails, [index_jsonl] returns with the connection exactly as it
    received it: no session and no message of the file, not even of the
    lines read before the failure, reaches the tables or the index, and the
    error counter alone moves, by one. *)
Theorem C10_failed_file_leaves_store (f : list line) (conn : db) (st : stats) :
  read_lines py_repr f [] [] = None ->
  (exists before bad after,
      f = before ++ bad :: after /\ raising py_repr bad = true)
  /\ index_jsonl py_repr f conn st
     = Some (conn, mk_stats (st_files st) (st_sessions st) (st_messages st)
                            (st_errors st + 1))
  /\ (forall before bad after,
         raising py_repr bad = true ->
         index_jsonl py_repr (before ++ bad :: after) conn st
         = Some (conn, mk_stats (st_files st) (st_sessions st) (st_messages st)
                                (st_errors st + 1))).
Proof.
  intros H. split; [now apply (read_lines_none f [] [])|]. split.
  - unfold index_jsonl. now rewrite H.
  - intros before bad after Hbad. unfold index_jsonl.
    now rewrite read_lines_raising.
Qed.

End Raising.

(** ** The session aggregator *)

Lemma q_int_eqb (x y : Z) : Qeq_bool (inject_Z x) (inject_Z y) = (x =? y).
Proof.
  destruct (Z.eqb_spec x y) as [->|Hne].
  - apply Qeq_bool_refl.
  - destruct (Qeq_bool (inject_Z x) (inject_Z y)) eqn:E; [|reflexivity].
    apply Qeq_bool_eq in E. unfold Qeq, inject_Z in E. simpl in E. lia.
Qed.

Lemma bool_eqb_int (x y : bool) : Bool.eqb x y = (bool_int x =? bool_int y).
Proof. now destruct x, y. Qed.

Lemma key_eqb_value (a b : pyval) (p q : Q) :
  key_value a = Some p -> key_value b = Some q ->
  key_eqb a b = Qeq_bool p q.
Proof.
  destruct a as [|x|x|x|x|x|x], b as [|y|y|y|y|y|y]; simpl;
    try discriminate; intros Ha Hb.
  all: try (injection Ha as <-); try (injection Hb as <-).
  all: rewrite ?q_int_eqb; try reflexivity.
  - apply bool_eqb_int.
  - unfold float_int_eqb. rewrite Hb. apply Qeq_bool_comm.
  - unfold float_int_eqb. rewrite Hb. apply Qeq_bool_comm.
  - unfold float_int_eqb. now rewrite Ha.
  - unfold float_int_eqb. now rewrite Ha.
  - unfold float_eqb. rewrite Ha, Hb. destruct x, y; try discriminate; reflexivity.
Qed.

Lemma key_eqb_no_value (a b : pyval) :
  key_value a = None -> key_eqb a b = true -> key_value b = None.
Proof.
  destruct a as [|x|x|x|x|x|x], b as [|y|y|y|y|y|y]; simpl;
    try discriminate; try reflexivity; intros Ha.
  - unfold float_int_eqb. now rewrite Ha.
  - unfold float_int_eqb. now rewrite Ha.
  - unfold float_eqb. destruct x, y; simpl in *; try discriminate; reflexivity.
Qed.

Lemma key_eqb_sym (a b : pyval) : key_eqb a b = key_eqb b a.
Proof.
  destruct a as [|x|x|x|x|x|x], b as [|y|y|y|y|y|y]; simpl; try reflexivity.
  - now destruct x, y.
  - apply Z.eqb_sym.
  - apply Z.eqb_sym.
  - apply Z.eqb_sym.
  - unfold float_eqb.
    destruct x as [|nx| |qx], y as [|ny| |qy]; simpl; try reflexivity;
      try apply Qeq_bool_comm.
    now destruct nx, ny.
  - apply String.eqb_sym.
Qed.

Lemma key_eqb_trans (a b c : pyval) :
  key_eqb a b = true -> key_eqb b c = true -> key_eqb a c = true.
Proof.
  intros Hab Hbc.
  destruct (key_value b) as [q|] eqn:Eb.
  - destruct (key_value a) as [p|] eqn:Ea.
    + destruct (key_value c) as [r|] eqn:Ec.
      * rewrite (key_eqb_value a b p q Ea Eb) in Hab.
        rewrite (key_eqb_value b c q r Eb Ec) in Hbc.
        rewrite (key_eqb_value a c p r Ea Ec).
        now apply (Qeq_bool_trans p q r).
      * rewrite key_eqb_sym in Hbc.
        now rewrite (key_eqb_no_value c b Ec Hbc) in Eb.
    + now rewrite (key_eqb_no_value a b Ea Hab) in Eb.
  - unfold float_int_eqb, float_eqb in *.
    destruct a as [|xa|xa|[|na| |qa]|sa|la|la],
             b as [|xb|xb|[|nb| |qb]|sb|lb|lb];
      simpl in Eb, Hab; try discriminate;
      destruct c as [|xc|xc|[|nc| |qc]|sc|lc|lc];
      simpl in Hbc |- *; try discriminate; try reflexivity.
    + now destruct na, nb, nc.
    + apply String.eqb_eq in Hab, Hbc. subst. apply String.eqb_refl.
Qed.

Lemma key_eqb_refl (k : pyval) : hashable k = true -> key_eqb k k = true.
Proof.
  destruct k as [|b|z|f|s|l|l]; simpl; try discriminate; intros _;
    try reflexivity.
  - now destruct b.
  - apply Z.eqb_refl.
  - unfold float_eqb. destruct f as [|n| |q]; simpl; try reflexivity.
    + now destruct n.
    + apply Qeq_bool_refl.
  - apply String.eqb_refl.
Qed.

Lemma truthy_value (k : pyval) (q : Q) :
  key_value k = Some q -> truthy k = negb (Qeq_bool q 0).
Proof.
  destruct k as [|b|z|f|s|l|l]; simpl; try discriminate.
  - intros [= <-]. now destruct b.
  - intros [= <-]. change 0%Q with (inject_Z 0). now rewrite q_int_eqb.
  - intros ->. reflexivity.
Qed.

Lemma key_eqb_truthy (k k0 : pyval) :
  key_eqb k k0 = true -> truthy k0 = true -> truthy k = true.
Proof.
  intros Hk Ht.
  destruct (key_value k) as [p|] eqn:Ek.
  - destruct (key_value k0) as [q|] eqn:Ek0.
    + rewrite (key_eqb_value k k0 p q Ek Ek0) in Hk.
      rewrite (truthy_value k0 q Ek0) in Ht. rewrite (truthy_value k p Ek).
      destruct (Qeq_bool p 0) eqn:E; [|reflexivity].
      apply Qeq_bool_sym in Hk.
      now rewrite (Qeq_bool_trans q p 0 Hk E) in Ht.
    + rewrite key_eqb_sym in Hk.
      now rewrite (key_eqb_no_value k0 k Ek0 Hk) in Ek.
  - unfold float_int_eqb, float_eqb in *.
    destruct k as [|b|z|[|n| |q]|s|l|l],
             k0 as [|b0|z0|[|n0| |q0]|s0|l0|l0];
      simpl in *; try discriminate; try reflexivity.
    apply String.eqb_eq in Hk. now subst.
Qed.

(** Keys that are equal are stored as the same text, floats apart: [1]
    and [1.0] are one key and two texts. *)
Lemma key_eqb_bind (a b : pyval) :
  is_float a = false -> is_float b = false ->
  key_eqb a b = true -> Sql.bind_text a = Sql.bind_text b.
Proof.
  destruct a as [|x|x|x|x|x|x], b as [|y|y|y|y|y|y]; simpl;
    try discriminate; try reflexivity; intros _ _ H.
  - now destruct x, y.
  - apply Z.eqb_eq in H. subst y. now destruct x.
  - apply Z.eqb_eq in H. subst x. now destruct y.
  - apply Z.eqb_eq in H. now subst.
  - apply String.eqb_eq in H. now subst.
Qed.

Lemma has_key_app (k : pyval) (d1 d2 : session_map) :
  has_key k (d1 ++ d2) = has_key k d1 || has_key k d2.
Proof.
  induction d1 as [|[k' v] d1 IH]; simpl; [reflexivity|].
  now rewrite IH, orb_assoc.
Qed.

Lemma has_key_update (k k0 : pyval) (f : sdata -> sdata) (d : session_map) :
  has_key k (update_key k0 f d) = has_key k d.
Proof.
  induction d as [|[k' v] d IH]; simpl; [reflexivity|].
  destruct (key_eqb k' k0); simpl; [reflexivity | now rewrite IH].
Qed.

(** ** The sessions table *)

Lemma bind_session_fields (sid : pyval) (v : sdata) (row : session_row) :
  bind_session sid v = Some row ->
  Sql.bind_text sid = Some (s_session_id row)
  /\ Sql.bind_text (sd_first_ts v) = Some (s_first_ts row)
  /\ Sql.bind_text (sd_last_ts v) = Some (s_last_ts row)
  /\ s_message_count row = sd_count v.
Proof.
  unfold bind_session. intros H. invert_bind H.
  destruct (Sql.int64 (sd_count v)); [|discriminate].
  injection H as <-. simpl. repeat split.
Qed.










(** ** The order of timestamps *)

Lemma string_leb_refl (a : string) : String.leb a a = true.
Proof.
  unfold String.leb. induction a as [|x a IH]; simpl; [reflexivity|].
  unfold Ascii.compare. now rewrite N.compare_refl.
Qed.

Lemma string_leb_trans (a b c : string) :
  String.leb a b = true -> String.leb b c = true -> String.leb a c = true.
Proof.
  unfold String.leb. revert b c.
  induction a as [|x a IH]; intros [|y b] [|z c]; simpl;
    try reflexivity; try discriminate.
  unfold Ascii.compare.
  destruct (N.compare_spec (N_of_ascii x) (N_of_ascii y)) as [Exy|Lxy|Gxy];
    destruct (N.compare_spec (N_of_ascii y) (N_of_ascii z)) as [Eyz|Lyz|Gyz];
    destruct (N.compare_spec (N_of_ascii x) (N_of_ascii z)) as [Exz|Lxz|Gxz];
    try reflexivity; try discriminate; try lia.
  apply IH.
Qed.

Lemma string_ltb_leb (a b : string) :
  String.ltb a b = true -> String.leb a b = true.
Proof.
  unfold String.ltb, String.leb. now destruct (String.compare a b).
Qed.

Lemma sql_max_ge (a l b : string) :
  String.leb a l = true ->
  String.leb a (if String.ltb l b then b else l) = true.
Proof.
  intros H. destruct (String.ltb l b) eqn:E; [|exact H].
  apply (string_leb_trans a l b H). now apply string_ltb_leb.
Qed.

(** ** [ORDER BY] and [LIMIT] *)

Section OrderBy.

Context {A : Type} (le : A -> A -> bool).

Hypothesis le_total : forall a b, le a b = true \/ le b a = true.

Let R (a b : A) : Prop := le a b = true.

Lemma insert_by_perm (x : A) (l : list A) :
  Permutation (Sql.insert_by le x l) (x :: l).
Proof.
  induction l as [|y l IH]; simpl; [reflexivity|].
  destruct (le x y); [reflexivity|].
  rewrite IH. apply perm_swap.
Qed.

Lemma order_by_perm (l : list A) : Permutation (Sql.order_by le l) l.
Proof.
  induction l as [|x l IH]; simpl; [reflexivity|].
  rewrite insert_by_perm. now constructor.
Qed.

Lemma insert_by_hdrel (a x : A) (l : list A) :
  R a x -> HdRel R a l -> HdRel R a (Sql.insert_by le x l).
Proof.
  intros Hax Hl. destruct l as [|y l]; simpl; [now constructor|].
  destruct (le x y); constructor; [exact Hax|].
  now inversion Hl.
Qed.

Lemma insert_by_sorted (x : A) (l : list A) :
  Sorted R l -> Sorted R (Sql.insert_by le x l).
Proof.
  induction l as [|y l IH]; intros Hs; simpl.
  - repeat constructor.
  - destruct (le x y) eqn:E.
    + constructor; [exact Hs | now constructor].
    + inversion Hs as [|? ? Hs' Hh]; subst.
      constructor; [now apply IH|].
      apply insert_by_hdrel; [|exact Hh].
      destruct (le_total x y) as [H|H]; [congruence | exact H].
Qed.

Lemma order_by_sorted (l : list A) : Sorted R (Sql.order_by le l).
Proof.
  induction l as [|x l IH]; simpl; [constructor | now apply insert_by_sorted].
Qed.

End OrderBy.

Lemma firstn_sorted {A : Type} (R : A -> A -> Prop) (n : nat) (l : list A) :
  Sorted R l -> Sorted R (firstn n l).
Proof.
  revert l. induction n as [|n IH]; intros l Hs; simpl; [constructor|].
  destruct l as [|x l]; [constructor|].
  inversion Hs as [|? ? Hs' Hh]; subst.
  constructor; [now apply IH|].
  destruct n; simpl; [constructor|].
  destruct l; [constructor|]. inversion Hh; subst. now constructor.
Qed.





Lemma sql_leb_total (a b : Sql.text) : Sql.leb a b = true \/ Sql.leb b a = true.
Proof.
  destruct a as [x|], b as [y|]; simpl; auto. apply String.leb_total.
Qed.


(** ** The two searches *)

(** The disagreement does not hinge on the engine: whatever engine ranks
    two matching rows, the rank does not see the timestamps, so that one of
    the two ways of dating the two messages makes the entry points
    disagree. *)
Lemma search_orders_differ_for_every_engine (E : fts5) (q : string)
  (matches : fts_row -> bool) (u1 c1 u2 c2 : string) :
  fts_match E q = Some matches ->
  matches (Some u1, Some c1) = true -> matches (Some u2, Some c2) = true ->
  u1 <> u2 ->
  hit_uuids (cmd_search E q (-1) (pair_db u1 "2" c1 u2 "1" c2))
  <> hit_uuids (search E q (-1) (pair_db u1 "2" c1 u2 "1" c2))
  \/ hit_uuids (cmd_search E q (-1) (pair_db u1 "1" c1 u2 "2" c2))
     <> hit_uuids (search E q (-1) (pair_db u1 "1" c1 u2 "2" c2)).
Proof.
  intros Hq H1 H2 Hne.
  assert (E12 : (u1 =? u2)%string = false) by now apply String.eqb_neq.
  assert (E21 : (u2 =? u1)%string = false).
  { apply String.eqb_neq. congruence. }
  unfold cmd_search, search, search_join, pair_db, by_rank. rewrite Hq.
  cbn [bind messages_fts messages sessions flat_map]. rewrite H1, H2.
  cbn [map fst m_uuid chat_row Sql.eqb app left_join_sessions filter
       flat_map]. rewrite !String.eqb_refl, E12, E21.
  cbn [app Sql.limit Z.ltb Z.compare Sql.order_by Sql.insert_by hit_fts fst
       hit_uuids option_map].
  destruct (Qle_bool _ _); [right | left]; cbn; intros [= H]; congruence.
Qed.


(** ** [LIKE] and the session prefix *)












Lemma sql_leb_trans (a b c : Sql.text) :
  Sql.leb a b = true -> Sql.leb b c = true -> Sql.leb a c = true.
Proof.
  destruct a as [x|], b as [y|], c as [z|]; simpl; try easy.
  apply string_leb_trans.
Qed.

Lemma sorted_app_le {A : Type} (R : A -> A -> Prop) (l1 l2 : list A) :
  (forall a b c, R a b -> R b c -> R a c) ->
  Sorted R (l1 ++ l2) ->
  forall a b, In a l1 -> In b l2 -> R a b.
Proof.
  intros Ht Hs. apply Sorted_StronglySorted in Hs; [|exact Ht].
  induction l1 as [|x l1 IH]; intros a b Ha Hb; [contradiction|].
  simpl in Hs. apply StronglySorted_inv in Hs as [Hs Hx].
  destruct Ha as [->|Ha]; [|now apply IH].
  rewrite Forall_forall in Hx. apply Hx, in_or_app. now right.
Qed.


Section ShowFacts.

Variable upper : string -> string.
Variable path_name : string -> string.








End ShowFacts.

(** * Further properties *)

(** ** More on [extract_content] *)

Section ExtractFacts.

Variable py_repr : pyval -> string.

Lemma strings_of_app_none (l1 l2 : list pyval) :
  strings_of l1 = None -> strings_of (l1 ++ l2) = None.
Proof.
  induction l1 as [|v l1 IH]; simpl; [discriminate|].
  destruct v; try reflexivity.
  destruct (strings_of l1); simpl; [discriminate|].
  intros _. now rewrite IH.
Qed.

Lemma strings_of_snoc_bad (l : list pyval) (v : pyval) :
  (forall s, v <> PStr s) -> strings_of (l ++ [v]) = None.
Proof.
  intros Hv. induction l as [|w l IH]; simpl.
  - destruct v; try reflexivity. now elim (Hv s).
  - destruct w; try reflexivity. now rewrite IH.
Qed.

(** Parts that cannot be joined stay in the list to the end of the loop. *)
Lemma scan_blocks_keeps_bad (blocks text_parts tool_names : list pyval) :
  strings_of text_parts = None ->
  strings_of (fst (scan_blocks py_repr blocks text_parts tool_names)) = None.
Proof.
  revert text_parts tool_names.
  induction blocks as [|block blocks IH]; intros tp tn H; simpl; [exact H|].
  destruct block; try (now apply IH).
  destruct (eq_str (field_get fields "type" PNone) "text");
    [apply IH; now apply strings_of_app_none|].
  destruct (eq_str (field_get fields "type" PNone) "tool_use");
    [now apply IH|].
  destruct (eq_str (field_get fields "type" PNone) "tool_result");
    [apply IH; now apply strings_of_app_none | now apply IH].
Qed.

Lemma scan_blocks_bad (blocks text_parts tool_names : list pyval) :
  existsb bad_text_block blocks = true ->
  strings_of (fst (scan_blocks py_repr blocks text_parts tool_names)) = None.
Proof.
  revert text_parts tool_names.
  induction blocks as [|block blocks IH]; intros tp tn H; [discriminate|].
  simpl in H. apply orb_prop in H as [H|H].
  - unfold bad_text_block in H. apply andb_prop in H as [Ht Hv].
    destruct block; try discriminate. simpl in Ht, Hv. simpl. rewrite Ht.
    apply scan_blocks_keeps_bad. apply strings_of_snoc_bad.
    intros s Hs. rewrite Hs in Hv. discriminate.
  - simpl. destruct block; try (now apply IH).
    destruct (eq_str (field_get fields "type" PNone) "text"); [now apply IH|].
    destruct (eq_str (field_get fields "type" PNone) "tool_use");
      [now apply IH|].
    destruct (eq_str (field_get fields "type" PNone) "tool_result");
      now apply IH.
Qed.

Lemma no_bad_text_block (blocks : list pyval) :
  existsb bad_text_block blocks = false -> Forall text_block_ok blocks.
Proof.
  induction blocks as [|block blocks IH]; intros H; constructor.
  - simpl in H. apply orb_false_elim in H as [H _].
    unfold bad_text_block in H. intros Ht. rewrite Ht in H. simpl in H.
    destruct (block_field "text" block); try discriminate. now eexists.
  - apply IH. simpl in H. now apply orb_false_elim in H as [_ H].
Qed.

(** X1.  [extract_content] raises in two cases only: on a truthy value
    that is not a dict, and on a block sequence holding a text block whose
    text is not a string.  A falsy payload, the empty dict included, yields
    the empty content, the empty model and no tool; content that is not a
    list is returned through [str], a string as it is. *)
Theorem extract_content_raises_iff (message_obj : pyval) :
  (extract_content py_repr message_obj = None
   <-> extract_raises message_obj = true)
  /\ (truthy message_obj = false ->
      extract_content py_repr message_obj = Some ("", PStr "", []))
  /\ (forall fields,
         message_obj = PDict fields -> fields <> [] ->
         (forall blocks, field_get fields "content" (PStr "") <> PList blocks) ->
         extract_content py_repr message_obj
         = Some (py_str py_repr (field_get fields "content" (PStr "")),
                 field_get fields "model" (PStr ""), []))
  /\ (forall s, py_str py_repr (PStr s) = s).
Proof.
  split; [|split; [|split]].
  - unfold extract_content, extract_raises.
    destruct (truthy message_obj) eqn:Ht; simpl; [|split; discriminate].
    destruct message_obj as [| | | | | |fields]; simpl;
      try (split; reflexivity).
    destruct (field_get fields "content" (PStr "")) as [| | | | |blocks|] eqn:Ec;
      try (split; discriminate).
    destruct (existsb bad_text_block blocks) eqn:Eb.
    + split; [reflexivity|]. intros _.
      assert (H := scan_blocks_bad blocks [] [] Eb).
      destruct (scan_blocks py_repr blocks [] []) as [parts names].
      simpl in H. unfold join. now rewrite H.
    + split; [|discriminate]. intros H. exfalso.
      destruct (scan_blocks_spec py_repr blocks [] [] []
                  (no_bad_text_block blocks Eb) eq_refl) as [parts [E1 E2]].
      rewrite E1 in H. unfold join in H. rewrite E2 in H. discriminate.
  - intros Ht. unfold extract_content. now rewrite Ht.
  - intros fields -> Hne Hc. unfold extract_content.
    assert (Ht : truthy (PDict fields) = true).
    { destruct fields; [now elim Hne | reflexivity]. }
    rewrite Ht. cbn [negb get bind].
    destruct (field_get fields "content" (PStr ""))
      as [| | | | |blocks|] eqn:E; try reflexivity.
    now elim (Hc blocks).
  - reflexivity.
Qed.

Lemma scan_blocks_ignored (before after : list pyval) (block : pyval)
  (text_parts tool_names : list pyval) :
  ignored_block block = true ->
  scan_blocks py_repr (before ++ block :: after) text_parts tool_names
  = scan_blocks py_repr (before ++ after) text_parts tool_names.
Proof.
  intros Hi. revert text_parts tool_names.
  induction before as [|b before IH]; intros tp tn; simpl.
  - unfold ignored_block in Hi. destruct block; try reflexivity.
    simpl in Hi.
    destruct (eq_str (field_get fields "type" PNone) "text"); [discriminate|].
    destruct (eq_str (field_get fields "type" PNone) "tool_use");
      [discriminate|].
    destruct (eq_str (field_get fields "type" PNone) "tool_result");
      [discriminate | reflexivity].
  - destruct b; try apply IH.
    destruct (eq_str (field_get fields "type" PNone) "text"); [apply IH|].
    destruct (eq_str (field_get fields "type" PNone) "tool_use"); [apply IH|].
    destruct (eq_str (field_get fields "type" PNone) "tool_result"); apply IH.
Qed.

(** X2.  A block that is not a dict, or whose type is none of [text],
    [tool_use], [tool_result] (a thinking block, an image), leaves no trace:
    the payload normalizes as it does without the block, wherever the block
    stands in the sequence. *)
Theorem extract_content_ignores_block (before after : list pyval)
  (block : pyval) (others : list (string * pyval)) :
  ignored_block block = true ->
  extract_content py_repr
    (PDict (("content", PList (before ++ block :: after)) :: others))
  = extract_content py_repr
      (PDict (("content", PList (before ++ after)) :: others)).
Proof.
  intros Hi. unfold extract_content. simpl.
  now rewrite (scan_blocks_ignored before after block [] [] Hi).
Qed.

End ExtractFacts.

(** ** More on the session aggregator *)

Lemma has_key_false (k : pyval) (d : session_map) (k' : pyval) (v : sdata) :
  has_key k d = false -> In (k', v) d -> key_eqb k' k = false.
Proof.
  induction d as [|[k0 v0] d IH]; intros H Hin; [destruct Hin|].
  simpl in H. apply orb_false_elim in H as [H0 H].
  destruct Hin as [[= -> ->]|Hin]; [exact H0 | now apply IH].
Qed.

Lemma has_key_true (k : pyval) (d : session_map) :
  has_key k d = true -> exists k' v, In (k', v) d /\ key_eqb k' k = true.
Proof.
  induction d as [|[k0 v0] d IH]; intros H; [discriminate|].
  simpl in H. apply orb_prop in H as [H|H].
  - exists k0, v0. split; [now left | exact H].
  - destruct (IH H) as [k' [v [Hin He]]]. exists k', v. split; [now right|].
    exact He.
Qed.

Lemma update_key_absent (k : pyval) (f : sdata -> sdata) (d d2 : session_map) :
  has_key k d = false ->
  update_key k f (d ++ d2) = d ++ update_key k f d2.
Proof.
  induction d as [|[k0 v0] d IH]; intros H; [reflexivity|].
  simpl in H. apply orb_false_elim in H as [H0 H].
  simpl. rewrite H0. now rewrite IH.
Qed.

Lemma update_key_twice (k : pyval) (f g : sdata -> sdata) (d : session_map) :
  update_key k f (update_key k g d) = update_key k (fun v => f (g v)) d.
Proof.
  induction d as [|[k0 v0] d IH]; [reflexivity|]. simpl.
  destruct (key_eqb k0 k) eqn:E; simpl; rewrite E; [reflexivity|].
  now rewrite IH.
Qed.

Lemma distinct_keys_update (k : pyval) (f : sdata -> sdata) (d : session_map) :
  distinct_keys (update_key k f d) = distinct_keys d.
Proof.
  induction d as [|[k0 v0] d IH]; [reflexivity|]. simpl.
  destruct (key_eqb k0 k); simpl; [reflexivity|].
  now rewrite has_key_update, IH.
Qed.

Lemma distinct_keys_snoc (d : session_map) (k : pyval) (v : sdata) :
  distinct_keys d = true -> has_key k d = false ->
  distinct_keys (d ++ [(k, v)]) = true.
Proof.
  induction d as [|[k0 v0] d IH]; intros Hd Hk; [reflexivity|].
  simpl in *. apply andb_prop in Hd as [H0 Hd].
  apply orb_false_elim in Hk as [Hk0 Hk].
  rewrite has_key_app. simpl. rewrite key_eqb_sym, Hk0, orb_false_r.
  apply negb_true_iff in H0. rewrite H0. simpl. now apply IH.
Qed.

(** With distinct keys, an update touches the one entry of the key. *)
Lemma update_key_in (k : pyval) (f : sdata -> sdata) (d : session_map)
  (k' : pyval) (v' : sdata) :
  distinct_keys d = true ->
  In (k', v') (update_key k f d) ->
  exists v, In (k', v) d /\ v' = (if key_eqb k' k then f v else v).
Proof.
  induction d as [|[k0 v0] d IH]; intros Hd Hin; [destruct Hin|].
  simpl in Hd. apply andb_prop in Hd as [H0 Hd].
  apply negb_true_iff in H0. simpl in Hin.
  destruct (key_eqb k0 k) eqn:E.
  - destruct Hin as [[= <- <-]|Hin].
    + exists v0. split; [now left | now rewrite E].
    + exists v'. split; [now right|].
      destruct (key_eqb k' k) eqn:E'; [|reflexivity].
      rewrite (key_eqb_sym k' k) in E'.
      assert (Hc := key_eqb_trans k0 k k' E E').
      rewrite key_eqb_sym in Hc.
      now rewrite (has_key_false k0 d k' v' H0 Hin) in Hc.
  - destruct Hin as [[= <- <-]|Hin].
    + exists v0. split; [now left | now rewrite E].
    + destruct (IH Hd Hin) as [v [Hv Ev]]. exists v. split; [now right|].
      exact Ev.
Qed.

Lemma events_of_snoc (k : pyval) (msgs : list message) (m : message) :
  events_of k (msgs ++ [m])
  = events_of k msgs ++ (if key_eqb k (msg_session_id m) then [m] else []).
Proof. unfold events_of. rewrite filter_app. reflexivity. Qed.

Lemma summarizes_other (msgs : list message) (m : message) (k : pyval)
  (v : sdata) :
  key_eqb k (msg_session_id m) = false ->
  summarizes msgs k v -> summarizes (msgs ++ [m]) k v.
Proof.
  intros E [first [rest H]]. exists first, rest.
  now rewrite events_of_snoc, E, app_nil_r.
Qed.

Lemma summarizes_next (msgs : list message) (m : message) (k : pyval)
  (v : sdata) :
  key_eqb k (msg_session_id m) = true ->
  summarizes msgs k v ->
  summarizes (msgs ++ [m]) k (incr_count (set_last_ts (msg_timestamp m) v)).
Proof.
  intros E [first [rest [He [Hf [Hl [Hc Hp]]]]]].
  exists first, (rest ++ [m]). rewrite events_of_snoc, E, He. simpl.
  repeat split; try assumption.
  - now rewrite last_last.
  - rewrite Hc. simpl. rewrite length_app. simpl. lia.
Qed.

(** A session without a summary has no event so far. *)
Lemma events_of_new_key (s : pyval) (d : session_map) (msgs : list message) :
  has_key s d = false ->
  (forall m, In m msgs -> has_key (msg_session_id m) d = true) ->
  events_of s msgs = [].
Proof.
  intros Ek. unfold events_of.
  induction msgs as [|m msgs IH]; intros Hm; [reflexivity|]. simpl.
  destruct (key_eqb s (msg_session_id m)) eqn:E.
  - exfalso.
    destruct (has_key_true _ _ (Hm m (or_introl eq_refl)))
      as [k' [v' [Hin' He']]].
    rewrite key_eqb_sym in E.
    assert (Hc := key_eqb_trans _ _ _ He' E).
    now rewrite (has_key_false s d k' v' Ek Hin') in Hc.
  - apply IH. intros m2 H2. apply Hm. now right.
Qed.

Section AggregatorCorrect.

Variable py_repr : pyval -> string.

(** What the loop body does with an entry it retains. *)
Lemma process_entry_retained (entry : pyval)
  (session_data session_data' : session_map) (msgs msgs' : list message) :
  process_entry py_repr entry session_data msgs = Some (session_data', msgs') ->
  (session_data' = session_data /\ msgs' = msgs)
  \/ (exists cwd git_branch m,
         hashable (msg_session_id m) = true
         /\ truthy (msg_session_id m) = true
         /\ in_entry_types (msg_type m) = true
         /\ msgs' = msgs ++ [m]
         /\ session_data'
            = update_key (msg_session_id m) incr_count
                (if negb (has_key (msg_session_id m) session_data)
                 then session_data
                        ++ [(msg_session_id m,
                             mk_sdata cwd cwd git_branch (msg_timestamp m)
                                      (msg_timestamp m) 0)]
                 else update_key (msg_session_id m)
                        (set_last_ts (msg_timestamp m)) session_data)).
Proof.
  unfold process_entry. intros H.
  destruct (get entry "type" (PStr "")) as [entry_type|]; [|discriminate].
  simpl in H.
  destruct (in_entry_types entry_type) eqn:Hty; simpl in H;
    [|injection H as <- <-; now left].
  destruct (get entry "sessionId" (PStr "")) as [session_id|]; [|discriminate].
  simpl in H.
  destruct (truthy session_id) eqn:Htr; simpl in H;
    [|injection H as <- <-; now left].
  destruct (hashable session_id) eqn:Hh; simpl in H; [|discriminate].
  destruct (get entry "cwd" (PStr "")) as [cwd|]; [|discriminate].
  destruct (get entry "gitBranch" (PStr "")) as [git_branch|]; [|discriminate].
  destruct (get entry "timestamp" (PStr "")) as [timestamp|]; [|discriminate].
  simpl in H.
  destruct (get entry "message" (PDict [])) as [msg_obj|]; [|discriminate].
  simpl in H.
  destruct (extract_content py_repr msg_obj) as [[[content model] tool_names]|];
    [|discriminate].
  simpl in H.
  destruct (get entry "uuid" (PStr "")) as [uuid|]; [|discriminate].
  destruct (get entry "parentUuid" (PStr "")) as [parent_uuid|]; [|discriminate].
  simpl in H.
  destruct (get msg_obj "role" (PStr "")) as [role|]; [|discriminate].
  simpl in H.
  destruct (join "," tool_names) as [names|]; [|discriminate].
  simpl in H. injection H as <- <-. right.
  exists cwd, git_branch,
    (mk_message uuid session_id parent_uuid entry_type role content timestamp
                model names).
  simpl. repeat split; assumption.
Qed.

Lemma process_entry_aggregated (entry : pyval)
  (session_data session_data' : session_map) (msgs msgs' : list message) :
  process_entry py_repr entry session_data msgs = Some (session_data', msgs') ->
  aggregated session_data msgs -> aggregated session_data' msgs'.
Proof.
  intros H [Hd [Hs Hm]].
  apply process_entry_retained in H
    as [[-> ->]|[cwd [gb [m [Hh [Ht [Hty [-> ->]]]]]]]];
    [exact (conj Hd (conj Hs Hm))|].
  set (s := msg_session_id m) in *. set (t := msg_timestamp m) in *.
  destruct (has_key s session_data) eqn:Ek; simpl.
  - (* the session has a summary already *)
    rewrite update_key_twice. split; [now rewrite distinct_keys_update|]. split.
    + intros k v' Hin.
      destruct (update_key_in s _ session_data k v' Hd Hin) as [v [Hv ->]].
      destruct (key_eqb k s) eqn:E.
      * now apply summarizes_next; [|apply Hs].
      * now apply summarizes_other; [|apply Hs].
    + intros m' Hin. rewrite has_key_update.
      apply in_app_or in Hin as [Hin|[<-|[]]]; [now apply Hm|].
      now repeat split.
  - (* the first event of the session *)
    rewrite (update_key_absent s incr_count session_data _ Ek). simpl.
    rewrite (key_eqb_refl s Hh).
    split; [now apply distinct_keys_snoc|]. split.
    + intros k v Hin. apply in_app_or in Hin as [Hin|[[= <- <-]|[]]].
      * apply summarizes_other; [|now apply Hs].
        now apply (has_key_false s session_data k v).
      * exists m, []. rewrite events_of_snoc. fold s.
        rewrite (key_eqb_refl s Hh).
        rewrite (events_of_new_key s session_data msgs Ek
                   (fun m' Hm' => proj1 (Hm m' Hm'))). simpl. repeat split.
    + intros m' Hin. rewrite has_key_app.
      apply in_app_or in Hin as [Hin|[<-|[]]].
      * destruct (Hm m' Hin) as [H1 H2]. now rewrite H1.
      * fold s. simpl. rewrite (key_eqb_refl s Hh), orb_true_r.
        now repeat split.
Qed.

Lemma read_lines_aggregated (f : list line)
  (session_data session_data' : session_map) (msgs msgs' : list message) :
  read_lines py_repr f session_data msgs = Some (session_data', msgs') ->
  aggregated session_data msgs -> aggregated session_data' msgs'.
Proof.
  revert session_data msgs.
  induction f as [|l f IH]; intros session_data msgs H Ha.
  - now injection H as <- <-.
  - destruct l as [| |entry|]; simpl in H; try (now apply (IH _ _ H));
      [|discriminate].
    destruct (process_entry py_repr entry session_data msgs)
      as [[sd1 msgs1]|] eqn:E; [|discriminate].
    simpl in H. apply (IH _ _ H).
    now apply (process_entry_aggregated entry session_data sd1 msgs msgs1).
Qed.

Lemma aggregated_start : aggregated [] [].
Proof. repeat split; intros; contradiction. Qed.

(** X3.  When the reading loop of a file completes, the dict
    [session_data] has one entry per session of the retained events: its
    keys are distinct, every retained event has an accepted type and a
    truthy session id filed in the dict, and every entry has at least one
    event, with [first_ts] the timestamp of the session's first event in
    file order, [last_ts] that of its last event, [count] the number of its
    events and [project] equal to [cwd]. *)
Theorem read_lines_summaries (f : list line) (session_data : session_map)
  (msgs : list message) :
  read_lines py_repr f [] [] = Some (session_data, msgs) ->
  distinct_keys session_data = true
  /\ (forall k v, In (k, v) session_data -> summarizes msgs k v)
  /\ (forall m, In m msgs ->
                has_key (msg_session_id m) session_data = true
                /\ truthy (msg_session_id m) = true
                /\ in_entry_types (msg_type m) = true).
Proof.
  intros H. exact (read_lines_aggregated f [] session_data [] msgs H
                     aggregated_start).
Qed.

(** The messages of the loop are the events of the lines, one for one. *)
Lemma process_entry_event (entry : pyval)
  (session_data session_data' : session_map) (msgs msgs' : list message) :
  process_entry py_repr entry session_data msgs = Some (session_data', msgs') ->
  match event (Decoded entry) with
  | Some (session_id, timestamp) =>
      exists m, msgs' = msgs ++ [m] /\ msg_session_id m = session_id
                /\ msg_timestamp m = timestamp
  | None => msgs' = msgs
  end.
Proof.
  unfold process_entry, event. intros H.
  destruct entry as [| | | | | |fields]; try discriminate. simpl in H.
  destruct (in_entry_types (field_get fields "type" (PStr ""))); simpl in H;
    [|now injection H as <- <-].
  destruct (truthy (field_get fields "sessionId" (PStr ""))); simpl in H;
    [|now injection H as <- <-].
  destruct (hashable (field_get fields "sessionId" (PStr ""))); simpl in H;
    [|discriminate].
  destruct (extract_content py_repr (field_get fields "message" (PDict [])))
    as [[[content model] tool_names]|]; [|discriminate].
  simpl in H.
  destruct (get (field_get fields "message" (PDict [])) "role" (PStr ""))
    as [role|]; [|discriminate].
  simpl in H.
  destruct (join "," tool_names) as [names|]; [|discriminate].
  simpl in H. injection H as <- <-. eexists. repeat split.
Qed.

Lemma read_lines_events (f : list line)
  (session_data session_data' : session_map) (msgs msgs' : list message) :
  read_lines py_repr f session_data msgs = Some (session_data', msgs') ->
  map (fun m => (msg_session_id m, msg_timestamp m)) msgs'
  = map (fun m => (msg_session_id m, msg_timestamp m)) msgs ++ events f.
Proof.
  revert session_data msgs.
  induction f as [|l f IH]; intros session_data msgs H.
  - injection H as <- <-. now rewrite app_nil_r.
  - destruct l as [| |entry|]; simpl in H; try (now apply (IH _ _ H));
      [|discriminate].
    destruct (process_entry py_repr entry session_data msgs)
      as [[sd1 msgs1]|] eqn:E; [|discriminate].
    simpl in H. rewrite (IH _ _ H). unfold events. cbn [flat_map].
    fold (events f). apply process_entry_event in E.
    destruct (event (Decoded entry)) as [[sid ts]|].
    + destruct E as [m [-> [<- <-]]]. rewrite map_app, <- app_assoc.
      reflexivity.
    + now rewrite E.
Qed.

(** The keys of the dict are session ids of the messages. *)
Lemma update_key_keys (k : pyval) (g : sdata -> sdata) (d : session_map) :
  map fst (update_key k g d) = map fst d.
Proof.
  induction d as [|[k0 v0] d IH]; [reflexivity|]. simpl.
  destruct (key_eqb k0 k); simpl; [reflexivity | now rewrite IH].
Qed.

Lemma process_entry_keys (entry : pyval)
  (session_data session_data' : session_map) (msgs msgs' : list message) :
  process_entry py_repr entry session_data msgs = Some (session_data', msgs') ->
  incl (map fst session_data) (map msg_session_id msgs) ->
  incl (map fst session_data') (map msg_session_id msgs').
Proof.
  intros H Hi.
  apply process_entry_retained in H
    as [[-> ->]|[cwd [gb [m [_ [_ [_ [-> ->]]]]]]]]; [exact Hi|].
  rewrite update_key_keys, map_app.
  destruct (has_key (msg_session_id m) session_data); simpl.
  - rewrite update_key_keys. now apply incl_appl.
  - rewrite map_app. simpl. apply incl_app; [now apply incl_appl|].
    apply incl_appr, incl_refl.
Qed.

Lemma read_lines_keys (f : list line)
  (session_data session_data' : session_map) (msgs msgs' : list message) :
  read_lines py_repr f session_data msgs = Some (session_data', msgs') ->
  incl (map fst session_data) (map msg_session_id msgs) ->
  incl (map fst session_data') (map msg_session_id msgs').
Proof.
  revert session_data msgs.
  induction f as [|l f IH]; intros session_data msgs H Hi.
  - now injection H as <- <-.
  - destruct l as [| |entry|]; simpl in H; try (now apply (IH _ _ H));
      [|discriminate].
    destruct (process_entry py_repr entry session_data msgs)
      as [[sd1 msgs1]|] eqn:E; [|discriminate].
    simpl in H. apply (IH _ _ H).
    now apply (process_entry_keys entry session_data sd1 msgs msgs1).
Qed.

End AggregatorCorrect.

(** ** More on the insert loop *)

Lemma uuid_conflict_uuid (r r' : message_row) (rows : list message_row) :
  m_uuid r = m_uuid r' -> uuid_conflict r rows = uuid_conflict r' rows.
Proof. intros H. unfold uuid_conflict. now rewrite H. Qed.

Lemma uuid_conflict_snoc (r r' : message_row) (rows : list message_row) :
  uuid_conflict r (rows ++ [r'])
  = uuid_conflict r rows || Sql.eqb (m_uuid r') (m_uuid r).
Proof.
  unfold uuid_conflict. rewrite existsb_app. simpl. now rewrite orb_false_r.
Qed.

Lemma bound_rows_cons (m : message) (msgs : list message) :
  bound_rows (m :: msgs)
  = match bind_message m with
    | Some row => row :: bound_rows msgs
    | None => bound_rows msgs
    end.
Proof. unfold bound_rows. simpl. now destruct (bind_message m). Qed.

(** The loop appends the first occurrences and nothing else, [seen] being
    any list with the uuids of the table. *)
Lemma insert_messages_rows (msgs : list message) (conn : db) (st : stats)
  (seen : list message_row) :
  (forall r, uuid_conflict r (messages conn) = uuid_conflict r seen) ->
  messages (fst (insert_messages msgs conn st))
  = messages conn ++ first_occurrences seen (bound_rows msgs)
  /\ messages_fts (fst (insert_messages msgs conn st))
     = messages_fts conn ++ map fts_of (first_occurrences seen (bound_rows msgs))
  /\ sessions (fst (insert_messages msgs conn st)) = sessions conn.
Proof.
  revert conn st seen.
  induction msgs as [|m msgs IH]; intros conn st seen Hseen.
  - simpl. now rewrite !app_nil_r.
  - rewrite bound_rows_cons, insert_messages_cons, insert_message_fst.
    destruct (bind_message m) as [row|]; [|now apply IH].
    cbn [first_occurrences].
    destruct (insert_or_ignore_cases row conn) as [[Hc E]|[Hc E]]; rewrite E.
    + rewrite <- (Hseen row), Hc. cbn [app]. apply IH. intros r.
      rewrite uuid_conflict_snoc, <- Hseen.
      destruct (Sql.eqb (m_uuid row) (m_uuid r)) eqn:Er;
        [|now rewrite orb_false_r].
      apply sql_eqb_eq in Er as [u [H1 H2]].
      rewrite (uuid_conflict_uuid r row); [now rewrite Hc | congruence].
    + rewrite <- (Hseen row), Hc.
      destruct (IH (mk_db (sessions conn) (messages conn ++ [row])
                          (messages_fts conn ++ [fts_of row]))
                   (snd (insert_message m conn st)) (seen ++ [row]))
        as [H1 [H2 H3]].
      { intros r. cbn [messages]. now rewrite !uuid_conflict_snoc, Hseen. }
      cbn [messages messages_fts sessions] in H1, H2, H3.
      rewrite H1, H2, H3, map_app, <- !app_assoc. now repeat split.
Qed.

Lemma first_occurrences_incl (seen rows : list message_row) (r : message_row) :
  In r (first_occurrences seen rows) -> In r rows.
Proof.
  revert seen. induction rows as [|r0 rows IH]; intros seen H; [exact H|].
  simpl in H. apply in_app_or in H as [H|H].
  - destruct (uuid_conflict r0 seen); [destruct H|].
    destruct H as [->|[]]. now left.
  - right. now apply (IH _ H).
Qed.

Lemma first_occurrences_length (seen rows : list message_row) :
  (List.length (first_occurrences seen rows) <= List.length rows)%nat.
Proof.
  revert seen. induction rows as [|r rows IH]; intros seen; simpl; [lia|].
  rewrite length_app. specialize (IH (seen ++ [r])).
  destruct (uuid_conflict r seen); simpl; lia.
Qed.

Lemma bound_rows_in (msgs : list message) (row : message_row) :
  In row (bound_rows msgs) ->
  exists m, In m msgs /\ bind_message m = Some row.
Proof.
  unfold bound_rows. intros H. apply in_flat_map in H as [m [Hm Hr]].
  exists m. split; [exact Hm|].
  destruct (bind_message m) as [r|]; [|destruct Hr].
  destruct Hr as [->|[]]. reflexivity.
Qed.

(** X4.  The insert loop is first-come-first-kept on uuids: after it the
    messages table is the table before followed by the rows of the messages
    that could be bound, in their order, each kept when its uuid is neither in
    the table nor in an earlier row of the same loop ([NULL] counting as in
    none); the index receives exactly the rows of the kept messages, and
    the sessions table is not touched. *)
Theorem insert_messages_first_kept (msgs : list message) (conn : db)
  (st : stats) :
  let conn' := fst (insert_messages msgs conn st) in
  let added := first_occurrences (messages conn) (bound_rows msgs) in
  messages conn' = messages conn ++ added
  /\ messages_fts conn' = messages_fts conn ++ map fts_of added
  /\ sessions conn' = sessions conn
  /\ (forall row, In row added ->
                  exists m, In m msgs /\ bind_message m = Some row).
Proof.
  intros conn' added. subst conn' added.
  destruct (insert_messages_rows msgs conn st (messages conn)
              (fun r => eq_refl)) as [H1 [H2 H3]].
  repeat split; try assumption.
  intros row Hin. apply bound_rows_in.
  now apply (first_occurrences_incl (messages conn)).
Qed.

(** ** The counters *)

Lemma insert_messages_stats (msgs : list message) (conn : db) (st : stats) :
  snd (insert_messages msgs conn st)
  = mk_stats (st_files st) (st_sessions st)
      (st_messages st + Z.of_nat (List.length (bound_rows msgs)))
      (st_errors st).
Proof.
  revert conn st. induction msgs as [|m msgs IH]; intros conn st.
  - simpl. rewrite Z.add_0_r. now destruct st.
  - rewrite insert_messages_cons, IH, bound_rows_cons.
    unfold insert_message.
    destruct (bind_message m); simpl; [|reflexivity].
    f_equal. lia.
Qed.

Lemma insert_sessions_stats (items : session_map) (conn conn' : db)
  (st st' : stats) :
  insert_sessions items conn st = Some (conn', st') ->
  st' = mk_stats (st_files st)
          (st_sessions st + Z.of_nat (List.length items))
          (st_messages st) (st_errors st).
Proof.
  revert conn st. induction items as [|[sid v] items IH]; intros conn st H.
  - injection H as <- <-. simpl. rewrite Z.add_0_r. now destruct st.
  - simpl in H. destruct (bind_session sid v) as [row|]; [|discriminate].
    simpl in H. apply IH in H. rewrite H. simpl. f_equal. lia.
Qed.

Section Counters.

Variable py_repr : pyval -> string.

(** X5.  What a completed call of [index_jsonl] adds to the counters is
    read off the file alone: one to [files] or, when the reading loop
    raised, one to [errors]; to [sessions] the number of summaries; to
    [messages] the number of messages whose statement ran, those ignored as
    duplicates included.  The table grows by at most that number. *)
Theorem index_jsonl_counters (f : list line) (conn conn' : db)
  (st st' : stats) :
  index_jsonl py_repr f conn st = Some (conn', st') ->
  st_messages st'
  = st_messages st + Z.of_nat (List.length (bound_rows (retained py_repr f)))
  /\ st_sessions st'
     = st_sessions st + Z.of_nat (List.length (summary py_repr f))
  /\ (st_files st', st_errors st')
     = (match read_lines py_repr f [] [] with
        | Some _ => (st_files st + 1, st_errors st)
        | None => (st_files st, st_errors st + 1)
        end)
  /\ (List.length (messages conn')
      <= List.length (messages conn)
         + List.length (bound_rows (retained py_repr f)))%nat.
Proof.
  intros H. unfold retained, summary.
  apply index_jsonl_cases in H
    as [[E [-> ->]]|[sd [msgs [c1 [s1 [E [Hs [-> ->]]]]]]]]; rewrite E.
  - simpl. repeat split; lia.
  - destruct (insert_messages_rows msgs c1 s1 (messages c1)
                (fun r => eq_refl)) as [H1 _].
    rewrite H1, length_app.
    destruct (insert_sessions_messages _ _ _ _ _ Hs) as [-> _].
    assert (Hl := first_occurrences_length (messages conn) (bound_rows msgs)).
    rewrite insert_messages_stats.
    rewrite (insert_sessions_stats _ _ _ _ _ Hs). cbn.
    repeat split. lia.
Qed.

End Counters.

(** ** Files that stop the run, files that are given up *)

Lemma insert_sessions_none (items : session_map) (conn : db) (st : stats) :
  insert_sessions items conn st = None
  <-> existsb unbindable_summary items = true.
Proof.
  revert conn st. induction items as [|[sid v] items IH]; intros conn st; simpl.
  - split; discriminate.
  - unfold unbindable_summary at 1. simpl.
    destruct (bind_session sid v) as [row|]; simpl; [apply IH|].
    split; reflexivity.
Qed.

Lemma count_error_file (st : stats) :
  count_file (count_error st) = count_error (count_file st).
Proof. reflexivity. Qed.

Lemma insert_messages_shift (msgs : list message) (conn : db) (st : stats) :
  insert_messages msgs conn (count_error st)
  = (fst (insert_messages msgs conn st),
     count_error (snd (insert_messages msgs conn st))).
Proof.
  revert conn st. induction msgs as [|m msgs IH]; intros conn st;
    [reflexivity|].
  rewrite !insert_messages_cons. unfold insert_message.
  destruct (bind_message m) as [row|]; simpl; [|apply IH].
  change (count_message (count_error st)) with (count_error (count_message st)).
  apply IH.
Qed.

Lemma insert_sessions_shift (items : session_map) (conn : db) (st : stats) :
  insert_sessions items conn (count_error st)
  = shift_error (insert_sessions items conn st).
Proof.
  revert conn st. induction items as [|[sid v] items IH]; intros conn st;
    [reflexivity|].
  simpl. destruct (bind_session sid v) as [row|]; simpl; [|reflexivity].
  change (count_session (count_error st)) with (count_error (count_session st)).
  apply IH.
Qed.

Section Run.

Variable py_repr : pyval -> string.

Lemma index_jsonl_shift (f : list line) (conn : db) (st : stats) :
  index_jsonl py_repr f conn (count_error st)
  = shift_error (index_jsonl py_repr f conn st).
Proof.
  unfold index_jsonl.
  destruct (read_lines py_repr f [] []) as [[sd msgs]|]; [|reflexivity].
  rewrite insert_sessions_shift.
  destruct (insert_sessions sd conn st) as [[c1 s1]|]; [|reflexivity].
  simpl. rewrite insert_messages_shift.
  now destruct (insert_messages msgs c1 s1).
Qed.

Lemma index_files_shift (files : list (list line)) (conn : db) (st : stats) :
  index_files py_repr files conn (count_error st)
  = shift_error (index_files py_repr files conn st).
Proof.
  revert conn st. induction files as [|f files IH]; intros conn st;
    [reflexivity|].
  simpl. rewrite index_jsonl_shift.
  destruct (index_jsonl py_repr f conn st) as [[c1 s1]|]; [|reflexivity].
  simpl. apply IH.
Qed.

Lemma index_files_app (files1 files2 : list (list line)) (conn : db)
  (st : stats) :
  index_files py_repr (files1 ++ files2) conn st
  = (r <- index_files py_repr files1 conn st ;;
     index_files py_repr files2 (fst r) (snd r)).
Proof.
  revert conn st. induction files1 as [|f files1 IH]; intros conn st;
    [reflexivity|].
  simpl. destruct (index_jsonl py_repr f conn st) as [[c1 s1]|]; simpl;
    [apply IH | reflexivity].
Qed.

(** X6.  An exception leaves [index_jsonl] uncaught exactly when the
    reading loop completes and one of the session summaries cannot be
    bound (for instance with a list as [cwd]), whatever the database
    holds; a message that cannot be bound never has this effect.  One
    such file stops the whole run of the driver, wherever it stands among
    the files. *)
Theorem index_jsonl_uncaught_iff (f : list line) (conn : db) (st : stats) :
  (index_jsonl py_repr f conn st = None <-> crashing py_repr f = true)
  /\ (crashing py_repr f = true ->
      forall before after conn0 st0,
        index_files py_repr (before ++ f :: after) conn0 st0 = None).
Proof.
  assert (Hiff : forall c s,
            index_jsonl py_repr f c s = None <-> crashing py_repr f = true).
  { intros c s. unfold index_jsonl, crashing.
    destruct (read_lines py_repr f [] []) as [[sd msgs]|];
      [|split; discriminate].
    rewrite <- (insert_sessions_none sd c s).
    destruct (insert_sessions sd c s) as [[c1 s1]|]; simpl;
      [|split; reflexivity].
    destruct (insert_messages msgs c1 s1). split; discriminate. }
  split; [apply Hiff|].
  intros Hc before after conn0 st0. rewrite index_files_app.
  destruct (index_files py_repr before conn0 st0) as [[c1 s1]|];
    [|reflexivity].
  simpl. now rewrite (proj2 (Hiff c1 s1) Hc).
Qed.

(** X7.  A file whose reading loop raises is counted as an error and
    otherwise leaves no trace in the run: the files before and after it are
    indexed as they are without it, into the same tables, with the same
    counters but for [errors], which is one higher. *)
Theorem index_files_failed_file (before after : list (list line))
  (f : list line) (conn : db) (st : stats) :
  read_lines py_repr f [] [] = None ->
  index_files py_repr (before ++ f :: after) conn st
  = option_map (fun cs => (fst cs, count_error (snd cs)))
      (index_files py_repr (before ++ after) conn st).
Proof.
  intros H. rewrite !index_files_app.
  destruct (index_files py_repr before conn st) as [[c1 s1]|]; [|reflexivity].
  simpl. unfold index_jsonl at 1. rewrite H. simpl.
  apply index_files_shift.
Qed.

(** X8.  When the run of the driver completes, every file has been
    counted once, as indexed or as an error: [files] and [errors] together
    go up by the number of files, and [errors] by the number of files whose
    reading loop raised. *)
Theorem index_files_accounting (files : list (list line)) (conn conn' : db)
  (st st' : stats) :
  index_files py_repr files conn st = Some (conn', st') ->
  st_files st' + st_errors st'
  = st_files st + st_errors st + Z.of_nat (List.length files)
  /\ st_errors st'
     = st_errors st
       + Z.of_nat (List.length
                     (filter (fun f => match read_lines py_repr f [] [] with
                                       | Some _ => false
                                       | None => true
                                       end) files)).
Proof.
  revert conn st. induction files as [|f files IH]; intros conn st H.
  - injection H as <- <-. simpl. lia.
  - simpl in H.
    destruct (index_jsonl py_repr f conn st) as [[c1 s1]|] eqn:E;
      [|discriminate].
    simpl in H. destruct (IH _ _ H) as [H1 H2].
    apply index_jsonl_cases in E
      as [[Er [_ ->]]|[sd [msgs [c2 [s2 [Er [Hs [_ ->]]]]]]]];
      cbn [filter]; rewrite Er.
    + simpl in *. lia.
    + rewrite insert_messages_stats in H1, H2.
      rewrite (insert_sessions_stats _ _ _ _ _ Hs) in H1, H2.
      simpl in *. lia.
Qed.

End Run.

(** ** What the indexer keeps true of the database *)

Lemma bind_message_fields (m : message) (row : message_row) :
  bind_message m = Some row ->
  Sql.bind_text (msg_session_id m) = Some (m_session_id row)
  /\ Sql.bind_text (msg_type m) = Some (m_type row)
  /\ m_content row = Some (msg_content m).
Proof.
  unfold bind_message. intros H. invert_bind H. injection H as <-.
  simpl. repeat split.
Qed.

Lemma has_session_upsert (row : session_row) (conn : db) (x : Sql.text) :
  has_session x conn = true -> has_session x (upsert_session row conn) = true.
Proof.
  unfold has_session, upsert_session. intros H.
  destruct (session_conflict row (sessions conn)); simpl.
  - rewrite existsb_exists in *. destruct H as [r [Hin Hr]].
    exists (if Sql.eqb (s_session_id r) (s_session_id row)
            then merge_session row r else r).
    split; [apply in_map_iff; now exists r|].
    now destruct (Sql.eqb (s_session_id r) (s_session_id row)).
  - rewrite existsb_app, H. reflexivity.
Qed.

Lemma has_session_upserted (row : session_row) (conn : db) (id : string) :
  s_session_id row = Some id ->
  has_session (Some id) (upsert_session row conn) = true.
Proof.
  intros Hid. unfold has_session, upsert_session.
  destruct (session_conflict row (sessions conn)) eqn:Ec; simpl.
  - unfold session_conflict in Ec. rewrite existsb_exists in *.
    destruct Ec as [r [Hin Hr]].
    exists (if Sql.eqb (s_session_id r) (s_session_id row)
            then merge_session row r else r).
    split; [apply in_map_iff; now exists r|].
    rewrite Hr. simpl. now rewrite <- Hid.
  - rewrite existsb_app. simpl. rewrite Hid. simpl.
    now rewrite String.eqb_refl, orb_true_r.
Qed.

Lemma insert_sessions_ids (items : session_map) (conn conn' : db)
  (st st' : stats) :
  insert_sessions items conn st = Some (conn', st') ->
  (forall x, has_session x conn = true -> has_session x conn' = true)
  /\ (forall k v id, In (k, v) items -> Sql.bind_text k = Some (Some id) ->
                     has_session (Some id) conn' = true).
Proof.
  revert conn st. induction items as [|[sid v] items IH]; intros conn st H.
  - injection H as <- <-. split; [trivial | intros k v id []].
  - simpl in H. destruct (bind_session sid v) as [row|] eqn:Hb; [|discriminate].
    simpl in H. destruct (IH _ _ H) as [Hkeep Hnew]. split.
    + intros x Hx. apply Hkeep. now apply has_session_upsert.
    + intros k w id [[= <- <-]|Hin] Hk; [|now apply (Hnew k w)].
      apply Hkeep. apply has_session_upserted.
      destruct (bind_session_fields sid v row Hb) as [Hid _]. congruence.
Qed.

Lemma session_id_count_map (id : string) (g : session_row -> session_row)
  (rows : list session_row) :
  (forall r, s_session_id (g r) = s_session_id r) ->
  session_id_count id (map g rows) = session_id_count id rows.
Proof.
  intros Hg. unfold session_id_count.
  induction rows as [|r rows IH]; [reflexivity|]. simpl. rewrite Hg.
  destruct (Sql.eqb (s_session_id r) (Some id)); simpl; now rewrite IH.
Qed.

Lemma session_conflict_count (row : session_row) (rows : list session_row)
  (id : string) :
  s_session_id row = Some id -> session_conflict row rows = false ->
  session_id_count id rows = 0%nat.
Proof.
  intros Hid. unfold session_conflict, session_id_count. rewrite Hid.
  induction rows as [|r rows IH]; simpl; [reflexivity|].
  destruct (Sql.eqb (s_session_id r) (Some id)); simpl; [discriminate|].
  exact IH.
Qed.

Lemma upsert_session_unique (row : session_row) (conn : db) :
  unique_sessions conn -> unique_sessions (upsert_session row conn).
Proof.
  unfold unique_sessions, upsert_session. intros H id.
  destruct (session_conflict row (sessions conn)) eqn:Ec; simpl.
  - rewrite session_id_count_map; [apply H|].
    intros r. now destruct (Sql.eqb (s_session_id r) (s_session_id row)).
  - unfold session_id_count. rewrite filter_app, length_app. simpl.
    destruct (Sql.eqb (s_session_id row) (Some id)) eqn:E; simpl.
    + destruct (proj1 (sql_eqb_eq _ _) E) as [u [Hu Hu']].
      injection Hu' as <-.
      assert (H0 := session_conflict_count row _ id Hu Ec).
      unfold session_id_count in H0. lia.
    + specialize (H id). unfold session_id_count in H. lia.
Qed.

Lemma upsert_session_ids_ok (row : session_row) (conn : db) (id : string) :
  s_session_id row = Some id ->
  ids_ok conn = true -> ids_ok (upsert_session row conn) = true.
Proof.
  unfold ids_ok, upsert_session. intros Hid H.
  destruct (session_conflict row (sessions conn)); simpl.
  - rewrite forallb_forall in *. intros r0 Hin.
    apply in_map_iff in Hin as [r [<- Hin]].
    specialize (H r Hin).
    now destruct (Sql.eqb (s_session_id r) (s_session_id row)).
  - rewrite forallb_app, H. simpl. now rewrite Hid.
Qed.

(** A truthy value is not stored as [NULL], unless it is the float
    [NaN]. *)
Lemma truthy_bound (v : pyval) (t : Sql.text) :
  is_float v = false ->
  truthy v = true -> Sql.bind_text v = Some t -> exists id, t = Some id.
Proof.
  intros Hf Ht Hb. destruct t as [id|]; [now exists id|].
  apply bind_text_null in Hb as [->| ->]; discriminate.
Qed.

(** The sessions loop keeps ids unique and present, when the keys are
    truthy and none is a float. *)
Lemma insert_sessions_shape (items : session_map) (conn conn' : db)
  (st st' : stats) :
  (forall k v, In (k, v) items -> truthy k = true /\ is_float k = false) ->
  insert_sessions items conn st = Some (conn', st') ->
  unique_sessions conn -> ids_ok conn = true ->
  unique_sessions conn' /\ ids_ok conn' = true.
Proof.
  revert conn st. induction items as [|[sid v] items IH];
    intros conn st Ht H Hu Hi.
  - injection H as <- <-. now split.
  - simpl in H. destruct (bind_session sid v) as [row|] eqn:Hb; [|discriminate].
    simpl in H.
    destruct (bind_session_fields sid v row Hb) as [Hid _].
    destruct (Ht sid v (or_introl eq_refl)) as [Htr Hnf].
    destruct (truthy_bound sid _ Hnf Htr Hid) as [id Hrow].
    apply (IH _ _ (fun k w Hin => Ht k w (or_intror Hin)) H).
    + now apply upsert_session_unique.
    + now apply (upsert_session_ids_ok row conn id).
Qed.

Lemma in_entry_types_bound (v : pyval) (t : Sql.text) :
  in_entry_types v = true -> Sql.bind_text v = Some t ->
  existsb (fun ty => Sql.eqb t (Some ty)) entry_types = true.
Proof.
  unfold in_entry_types. intros Hv Hb.
  destruct v; try discriminate. simpl in Hb. injection Hb as <-.
  exact Hv.
Qed.

Section Shape.

Variable py_repr : pyval -> string.

(** The keys of the summaries are truthy. *)
Lemma aggregated_keys (session_data : session_map) (msgs : list message)
  (k : pyval) (v : sdata) :
  aggregated session_data msgs -> In (k, v) session_data -> truthy k = true.
Proof.
  intros [_ [Hs Hm]] Hin.
  destruct (Hs k v Hin) as [first [rest [He _]]].
  assert (Hf : In first (events_of k msgs)) by (rewrite He; now left).
  unfold events_of in Hf. apply filter_In in Hf as [Hf Hk].
  destruct (Hm first Hf) as [_ [Ht _]].
  now apply (key_eqb_truthy k (msg_session_id first)).
Qed.

(** The message rows one pass can add refer to a session of the pass and
    have an accepted type. *)
Lemma pass_rows_shape (session_data : session_map) (msgs : list message)
  (conn conn1 : db) (st st1 : stats) (row : message_row) :
  aggregated session_data msgs ->
  (forall m, In m msgs -> is_float (msg_session_id m) = false) ->
  (forall k v, In (k, v) session_data -> is_float k = false) ->
  insert_sessions session_data conn st = Some (conn1, st1) ->
  In row (bound_rows msgs) ->
  has_session (m_session_id row) conn1 = true
  /\ existsb (fun ty => Sql.eqb (m_type row) (Some ty)) entry_types = true.
Proof.
  intros [_ [_ Hm]] Hfm Hfk Hs Hin.
  apply bound_rows_in in Hin as [m [Hin Hb]].
  destruct (Hm m Hin) as [Hk [Ht Hty]].
  destruct (bind_message_fields m row Hb) as [Hsid [Htype _]].
  split; [|now apply (in_entry_types_bound (msg_type m))].
  destruct (truthy_bound _ _ (Hfm m Hin) Ht Hsid) as [id Hid].
  rewrite Hid in *.
  apply has_key_true in Hk as [k0 [v0 [Hin0 He]]].
  apply (proj2 (insert_sessions_ids _ _ _ _ _ Hs) k0 v0 id Hin0).
  now rewrite (key_eqb_bind k0 _ (Hfk k0 v0 Hin0) (Hfm m Hin) He).
Qed.

(** Without a float among the session ids of the events, none is among
    the messages and the keys of the loop. *)
Lemma plain_ids_read (f : list line) (session_data : session_map)
  (msgs : list message) :
  plain_ids f = true ->
  read_lines py_repr f [] [] = Some (session_data, msgs) ->
  (forall m, In m msgs -> is_float (msg_session_id m) = false)
  /\ (forall k v, In (k, v) session_data -> is_float k = false).
Proof.
  intros Hp E.
  assert (Hm : forall m, In m msgs -> is_float (msg_session_id m) = false).
  { intros m Hin. unfold plain_ids in Hp. rewrite forallb_forall in Hp.
    apply negb_true_iff.
    apply (Hp (msg_session_id m, msg_timestamp m)).
    rewrite <- (app_nil_l (events f)).
    change (@nil (pyval * pyval))
      with (map (fun m => (msg_session_id m, msg_timestamp m)) []).
    rewrite <- (read_lines_events py_repr f [] session_data [] msgs E).
    now apply (in_map (fun m => (msg_session_id m, msg_timestamp m))). }
  split; [exact Hm|]. intros k v Hin.
  assert (Hk : In k (map msg_session_id msgs)).
  { apply (read_lines_keys py_repr f [] session_data [] msgs E);
      [intros x []|].
    now apply (in_map fst _ (k, v)). }
  apply in_map_iff in Hk as [m [<- Hin']]. now apply Hm.
Qed.

Lemma index_jsonl_well_formed (f : list line) (conn conn' : db)
  (st st' : stats) :
  plain_ids f = true ->
  index_jsonl py_repr f conn st = Some (conn', st') ->
  well_formed conn -> well_formed conn'.
Proof.
  intros Hp H [Hsync [Huu [Hus [Hr [Hty Hids]]]]].
  assert (Hsync' := index_jsonl_inv py_repr in_sync in_sync_ext
                      insert_or_ignore_sync _ _ _ _ _ H Hsync).
  assert (Huu' := index_jsonl_inv py_repr unique_uuids unique_uuids_ext
                    insert_or_ignore_unique _ _ _ _ _ H Huu).
  apply index_jsonl_cases in H
    as [[_ [-> _]]|[sd [msgs [c1 [s1 [E [Hs [-> _]]]]]]]];
    [now repeat split|].
  assert (Ha := read_lines_aggregated py_repr f [] sd [] msgs E
                  aggregated_start).
  destruct (plain_ids_read f sd msgs Hp E) as [Hfm Hfk].
  destruct (insert_sessions_shape sd conn c1 st s1
              (fun k v Hin => conj (aggregated_keys sd msgs k v Ha Hin)
                                   (Hfk k v Hin)) Hs Hus Hids)
    as [Hus1 Hids1].
  destruct (insert_messages_rows msgs c1 s1 (messages c1) (fun r => eq_refl))
    as [Hm [_ Hss]].
  destruct (insert_sessions_messages _ _ _ _ _ Hs) as [Hm1 _].
  destruct (insert_sessions_ids _ _ _ _ _ Hs) as [Hkeep _].
  split; [exact Hsync'|]. split; [exact Huu'|].
  split; [unfold unique_sessions; now rewrite Hss|].
  split; [|split].
  - unfold references_ok. rewrite Hm, Hss, forallb_app. apply andb_true_intro.
    split.
    + rewrite Hm1. unfold references_ok in Hr. rewrite forallb_forall in *.
      intros m Hin. apply (Hkeep (m_session_id m)). now apply Hr.
    + apply forallb_forall. intros row Hin.
      apply first_occurrences_incl in Hin.
      now destruct (pass_rows_shape sd msgs conn c1 st s1 row Ha Hfm Hfk Hs
                      Hin).
  - unfold types_ok. rewrite Hm, forallb_app. apply andb_true_intro. split.
    + rewrite Hm1. exact Hty.
    + apply forallb_forall. intros row Hin.
      apply first_occurrences_incl in Hin.
      now destruct (pass_rows_shape sd msgs conn c1 st s1 row Ha Hfm Hfk Hs
                      Hin).
  - unfold ids_ok. now rewrite Hss.
Qed.

Lemma index_files_keeps_well_formed (files : list (list line))
  (conn conn' : db) (st st' : stats) :
  forallb plain_ids files = true ->
  index_files py_repr files conn st = Some (conn', st') ->
  well_formed conn -> well_formed conn'.
Proof.
  revert conn st. induction files as [|f files IH]; intros conn st Hp H Hw.
  - now injection H as <- <-.
  - simpl in Hp. apply andb_prop in Hp as [Hf Hp]. simpl in H.
    destruct (index_jsonl py_repr f conn st) as [[c1 s1]|] eqn:E;
      [|discriminate].
    simpl in H. apply (IH c1 s1 Hp H).
    now apply (index_jsonl_well_formed f conn c1 st s1).
Qed.

Lemma init_db_well_formed : well_formed init_db.
Proof.
  unfold well_formed, in_sync, unique_uuids, unique_sessions.
  repeat split; intros u; unfold uuid_count, session_id_count; simpl; lia.
Qed.

(** X9.  A fresh database is well formed, and every completed run of the
    driver over files that have no float as the [sessionId] of an event
    keeps a database well formed: the index mirrors the messages table, no
    uuid and no session id occurs twice, every session row has an id,
    every message row has one of the three types, and every message row
    refers to a stored session, although SQLite is not asked to enforce
    the foreign key.  (A float breaks it: [NaN] is stored as a [NULL] id,
    and [1.0] is filed with the session [1] but stored as another
    text.) *)
Theorem index_files_well_formed (files : list (list line)) (conn conn' : db)
  (st st' : stats) :
  forallb plain_ids files = true ->
  well_formed conn ->
  index_files py_repr files conn st = Some (conn', st') ->
  well_formed init_db /\ well_formed conn'.
Proof.
  intros Hp Hw H. split; [exact init_db_well_formed|].
  exact (index_files_keeps_well_formed files conn conn' st st' Hp H Hw).
Qed.

End Shape.

(** ** The indexer only adds *)

Lemma same_session_refl (r : session_row) : same_session r r.
Proof.
  unfold same_session. repeat split. lia.
Qed.

Lemma same_session_trans (a b c : session_row) :
  same_session a b -> same_session b c -> same_session a c.
Proof.
  unfold same_session.
  intros [H1 [H2 [H3 [H4 [H5 H6]]]]] [K1 [K2 [K3 [K4 [K5 K6]]]]].
  repeat split; try congruence. lia.
Qed.

Lemma Forall2_same_refl (rows : list session_row) :
  Forall2 same_session rows rows.
Proof.
  induction rows; constructor; [apply same_session_refl | assumption].
Qed.

Lemma Forall2_same_trans (a b c : list session_row) :
  Forall2 same_session a b -> Forall2 same_session b c ->
  Forall2 same_session a c.
Proof.
  intros H. revert c. induction H as [|x y a b Hxy _ IH]; intros c Hc.
  - inversion Hc. constructor.
  - inversion Hc as [|y0 z b0 c0 Hyz Hbc]; subst. constructor.
    + now apply (same_session_trans x y z).
    + now apply IH.
Qed.

Lemma sessions_extend_refl (rows : list session_row) :
  sessions_extend rows rows.
Proof.
  exists rows, []. split; [now rewrite app_nil_r | apply Forall2_same_refl].
Qed.

Lemma sessions_extend_trans (a b c : list session_row) :
  sessions_extend a b -> sessions_extend b c -> sessions_extend a c.
Proof.
  intros [kept [added [-> Hk]]] [kept2 [added2 [-> Hk2]]].
  apply Forall2_app_inv_l in Hk2 as [k1 [k2 [H1 [H2 ->]]]].
  exists k1, (k2 ++ added2). split; [now rewrite app_assoc|].
  now apply (Forall2_same_trans a kept k1).
Qed.

Lemma upsert_session_extends (row : session_row) (conn : db) :
  0 <= s_message_count row ->
  sessions_extend (sessions conn) (sessions (upsert_session row conn)).
Proof.
  intros Hc. unfold upsert_session.
  destruct (session_conflict row (sessions conn)); simpl.
  - exists (map (fun r => if Sql.eqb (s_session_id r) (s_session_id row)
                          then merge_session row r else r) (sessions conn)), [].
    split; [now rewrite app_nil_r|].
    induction (sessions conn) as [|r rows IH]; simpl; constructor; [|exact IH].
    destruct (Sql.eqb (s_session_id r) (s_session_id row));
      [|apply same_session_refl].
    unfold same_session, merge_session. simpl. repeat split. lia.
  - exists (sessions conn), [row]. split; [reflexivity|].
    apply Forall2_same_refl.
Qed.

Lemma insert_sessions_extends (items : session_map) (conn conn' : db)
  (st st' : stats) :
  (forall k v, In (k, v) items -> 0 <= sd_count v) ->
  insert_sessions items conn st = Some (conn', st') ->
  sessions_extend (sessions conn) (sessions conn').
Proof.
  revert conn st. induction items as [|[sid v] items IH]; intros conn st Hc H.
  - injection H as <- <-. apply sessions_extend_refl.
  - simpl in H. destruct (bind_session sid v) as [row|] eqn:Hb; [|discriminate].
    simpl in H.
    destruct (bind_session_fields sid v row Hb) as [_ [_ [_ Hn]]].
    apply (sessions_extend_trans _ (sessions (upsert_session row conn))).
    + apply upsert_session_extends. rewrite Hn.
      apply (Hc sid v). now left.
    + apply (IH _ _ (fun k w Hin => Hc k w (or_intror Hin)) H).
Qed.

Lemma db_extends_refl (conn : db) : db_extends conn conn.
Proof.
  split; [|apply sessions_extend_refl].
  exists []. simpl. now rewrite !app_nil_r.
Qed.

Lemma db_extends_trans (a b c : db) :
  db_extends a b -> db_extends b c -> db_extends a c.
Proof.
  intros [[m1 [H1 F1]] S1] [[m2 [H2 F2]] S2]. split.
  - exists (m1 ++ m2).
    rewrite H2, H1, F2, F1, map_app, !app_assoc. now split.
  - now apply (sessions_extend_trans _ (sessions b)).
Qed.

Section AppendOnly.

Variable py_repr : pyval -> string.

Lemma aggregated_counts (session_data : session_map) (msgs : list message)
  (k : pyval) (v : sdata) :
  aggregated session_data msgs -> In (k, v) session_data -> 0 <= sd_count v.
Proof.
  intros [_ [Hs _]] Hin.
  destruct (Hs k v Hin) as [first [rest [_ [_ [_ [Hn _]]]]]].
  rewrite Hn. lia.
Qed.

Lemma index_jsonl_extends (f : list line) (conn conn' : db)
  (st st' : stats) :
  index_jsonl py_repr f conn st = Some (conn', st') -> db_extends conn conn'.
Proof.
  intros H.
  apply index_jsonl_cases in H
    as [[_ [-> _]]|[sd [msgs [c1 [s1 [E [Hs [-> _]]]]]]]];
    [apply db_extends_refl|].
  assert (Ha := read_lines_aggregated py_repr f [] sd [] msgs E
                  aggregated_start).
  destruct (insert_messages_rows msgs c1 s1 (messages c1) (fun r => eq_refl))
    as [Hm [Hf Hss]].
  destruct (insert_sessions_messages _ _ _ _ _ Hs) as [Hm1 Hf1].
  split.
  - exists (first_occurrences (messages c1) (bound_rows msgs)).
    rewrite Hm, Hf, Hm1, Hf1. now split.
  - rewrite Hss.
    apply (insert_sessions_extends sd conn c1 st s1); [|exact Hs].
    intros k v Hin. exact (aggregated_counts sd msgs k v Ha Hin).
Qed.

(** X10.  The indexer only adds.  After a completed run every message row
    and every index row that was there is still there, unchanged and in
    its place, with the new rows after them; every session row is still
    there in its place with the same project, cwd, branch and first
    timestamp and a count that has not gone down, with the new sessions
    after them. *)
Theorem index_files_append_only (files : list (list line)) (conn conn' : db)
  (st st' : stats) :
  index_files py_repr files conn st = Some (conn', st') ->
  db_extends conn conn'.
Proof.
  revert conn st. induction files as [|f files IH]; intros conn st H.
  - injection H as <- <-. apply db_extends_refl.
  - simpl in H.
    destruct (index_jsonl py_repr f conn st) as [[c1 s1]|] eqn:E;
      [|discriminate].
    simpl in H. apply (db_extends_trans conn c1 conn').
    + exact (index_jsonl_extends f conn c1 st s1 E).
    + exact (IH c1 s1 H).
Qed.

End AppendOnly.

(** ** The commands that read the database *)

Lemma type_counts (rows : list message_row) :
  forallb (fun m => existsb (fun ty => Sql.eqb (m_type m) (Some ty)) entry_types)
          rows = true ->
  List.length rows
  = (List.length (filter (fun m => Sql.eqb (m_type m) (Some "user")) rows)
     + List.length (filter (fun m => Sql.eqb (m_type m) (Some "assistant")) rows)
     + List.length (filter (fun m => Sql.eqb (m_type m) (Some "summary")) rows))%nat.
Proof.
  induction rows as [|m rows IH]; intros H; [reflexivity|].
  simpl in H. apply andb_prop in H as [Hm Hrows]. specialize (IH Hrows).
  cbn [filter].
  destruct (m_type m) as [ty|]; [|discriminate]. simpl in Hm. simpl Sql.eqb.
  destruct (ty =? "user")%string eqn:Eu.
  - apply String.eqb_eq in Eu. subst ty. simpl. lia.
  - destruct (ty =? "assistant")%string eqn:Ea.
    + apply String.eqb_eq in Ea. subst ty. simpl. lia.
    + destruct (ty =? "summary")%string eqn:Es; [|discriminate].
      apply String.eqb_eq in Es. subst ty. simpl. lia.
Qed.

(** X11.  In a database whose messages all have one of the three types,
    as the indexer leaves it, the total that [cmd_stats] prints is the sum
    of the two counts it prints beside it and of the number of summary
    rows, which it does not print. *)
Theorem cmd_stats_counts (db_path : string) (conn : db) :
  types_ok conn = true ->
  let user := count_type "user" conn in
  let assistant := count_type "assistant" conn in
  List.length (messages conn)
  = (user + assistant + count_type "summary" conn)%nat
  /\ (user + assistant <= List.length (messages conn))%nat
  /\ nth 2 (cmd_stats db_path conn) ""
     = ("Messages: "
        ++ decimal_nat (user + assistant + count_type "summary" conn)
        ++ " (user: " ++ decimal_nat user
        ++ ", assistant: " ++ decimal_nat assistant ++ ")")%string.
Proof.
  intros H user assistant.
  assert (Hn := type_counts (messages conn) H).
  fold (count_type "user" conn) in Hn.
  fold (count_type "assistant" conn) in Hn.
  fold (count_type "summary" conn) in Hn.
  fold user assistant in Hn.
  split; [exact Hn|]. split; [lia|].
  unfold cmd_stats. cbn [nth]. fold user assistant. now rewrite Hn.
Qed.


Section ReadCommands.

Variable upper : string -> string.
Variable path_name : string -> string.











End ReadCommands.

(** ** The listing of recent sessions *)

(** X14.  [cmd_sessions] and [list_sessions] list the most recently active
    sessions.  Their query fails on a limit outside 64 bits.  Otherwise
    the rows listed are rows of the table, each as often as it is there,
    in descending order of [last_ts], and no session left out has a later
    [last_ts] than one listed ([NULL] counting as earliest); a limit that
    is not negative lists that many sessions, or all when there are
    fewer, and a negative limit lists all. *)
Theorem recent_sessions_most_recent (limit : Z) (conn : db) :
  (Sql.int64 limit = false -> recent_sessions limit conn = None)
  /\ (Sql.int64 limit = true ->
      exists listed dropped,
        recent_sessions limit conn = Some listed
        /\ Permutation (listed ++ dropped) (sessions conn)
        /\ Sorted (fun a b => Sql.leb (s_last_ts b) (s_last_ts a) = true)
                  listed
        /\ (forall a b, In a listed -> In b dropped ->
                        Sql.leb (s_last_ts b) (s_last_ts a) = true)
        /\ (0 <= limit ->
            List.length listed
            = Nat.min (Z.to_nat limit) (List.length (sessions conn)))
        /\ (limit < 0 -> dropped = [])).
Proof.
  assert (Hs : Sorted (fun a b => by_last_ts_desc a b = true)
                 (Sql.order_by by_last_ts_desc (sessions conn))).
  { apply (order_by_sorted by_last_ts_desc). intros a b. apply sql_leb_total. }
  assert (Hp := order_by_perm by_last_ts_desc (sessions conn)).
  unfold recent_sessions, Sql.limit, Sql.bind_int.
  split; intros Hi; rewrite Hi; [reflexivity|]. simpl.
  unfold Sql.first_rows. destruct (limit <? 0) eqn:E.
  - exists (Sql.order_by by_last_ts_desc (sessions conn)), [].
    rewrite app_nil_r. split; [reflexivity|].
    split; [exact Hp|]. split; [exact Hs|].
    split; [intros a b _ []|]. split; [|reflexivity].
    apply Z.ltb_lt in E. lia.
  - exists (firstn (Z.to_nat limit)
              (Sql.order_by by_last_ts_desc (sessions conn))),
           (skipn (Z.to_nat limit)
              (Sql.order_by by_last_ts_desc (sessions conn))).
    rewrite firstn_skipn. split; [reflexivity|]. split; [exact Hp|].
    split; [now apply firstn_sorted|]. split; [|split].
    + apply (sorted_app_le (fun a b => by_last_ts_desc a b = true)).
      * intros a b c Hab Hbc. unfold by_last_ts_desc in *.
        now apply (sql_leb_trans _ (s_last_ts b)).
      * now rewrite firstn_skipn.
    + intros _. rewrite length_firstn. f_equal.
      apply Permutation_length, Hp.
    + apply Z.ltb_ge in E. lia.
Qed.

(** ** What the searches find *)




Lemma find_filter {A : Type} (p : A -> bool) (l : list A) :
  find p l = hd_error (filter p l).
Proof.
  induction l as [|a l IH]; [reflexivity|]. simpl.
  now destruct (p a).
Qed.





(** ** Re-indexing a file, exactly *)

Lemma uuid_conflict_null (row : message_row) (rows : list message_row) :
  m_uuid row = None -> uuid_conflict row rows = false.
Proof.
  intros H. unfold uuid_conflict. rewrite H.
  induction rows as [|r rows IH]; simpl; [reflexivity|].
  now destruct (m_uuid r).
Qed.

(** A row with a [NULL] uuid is stored every time. *)
Lemma first_occurrences_null (seen rows : list message_row)
  (row : message_row) :
  In row rows -> m_uuid row = None -> In row (first_occurrences seen rows).
Proof.
  revert seen. induction rows as [|r rows IH]; intros seen Hin Hu;
    [destruct Hin|].
  simpl. destruct Hin as [->|Hin].
  - rewrite (uuid_conflict_null row seen Hu). now left.
  - apply in_or_app. right. now apply IH.
Qed.

Lemma bound_rows_of (msgs : list message) (m : message) (row : message_row) :
  In m msgs -> bind_message m = Some row -> In row (bound_rows msgs).
Proof.
  intros Hin Hb. unfold bound_rows. apply in_flat_map. exists m.
  split; [exact Hin|]. rewrite Hb. now left.
Qed.

Section Reindex.

Variable py_repr : pyval -> string.

(** C1, amended.  Indexing a file a second time leaves the messages table
    and the full-text index exactly as the first pass left them (the same
    rows with the same content in the same number) if and only if none of
    the retained records that can be stored has a uuid that SQLite stores
    as [NULL]: a JSON [null] or a [NaN]. *)
Theorem C1_reindex_idempotent_with_uuids (f : list line)
  (conn conn1 conn2 : db) (st st1 st2 : stats) :
  index_jsonl py_repr f conn st = Some (conn1, st1) ->
  index_jsonl py_repr f conn1 st1 = Some (conn2, st2) ->
  (messages conn2 = messages conn1 /\ messages_fts conn2 = messages_fts conn1)
  <-> Forall (fun m => bind_message m <> None ->
                       msg_uuid m <> PNone /\ msg_uuid m <> PFloat FNaN)
             (retained py_repr f).
Proof.
  intros H1 H2. unfold retained.
  apply index_jsonl_cases in H1
    as [[E1 [-> _]]|[sd [msgs [c1 [s1 [E1 [Hs1 [-> _]]]]]]]];
  apply index_jsonl_cases in H2
    as [[E2 [-> _]]|[sd' [msgs' [c2 [s2 [E2 [Hs2 [-> _]]]]]]]];
  try congruence.
  - rewrite E1. split; [constructor | now split].
  - rewrite E1 in E2. injection E2 as <- <-. rewrite E1.
    destruct (insert_sessions_messages _ _ _ _ _ Hs2) as [M2 F2].
    split.
    + intros [Hm _]. apply Forall_forall. intros m Hin Hb.
      destruct (bind_message m) as [row|] eqn:Eb; [|now elim Hb].
      assert (Hrow := bind_message_uuid m row Eb).
      destruct (m_uuid row) as [u|] eqn:Eu.
      * split; intros Heq; rewrite Heq in Hrow; discriminate.
      * exfalso.
        destruct (insert_messages_rows msgs c2 s2 (messages c2)
                    (fun r => eq_refl)) as [Hrows _].
        rewrite Hm, M2 in Hrows.
        assert (Hin' := first_occurrences_null
                          (messages (fst (insert_messages msgs c1 s1)))
                          (bound_rows msgs) row
                          (bound_rows_of msgs m row Hin Eb) Eu).
        apply (f_equal (@List.length message_row)) in Hrows.
        rewrite length_app in Hrows.
        destruct (first_occurrences _ (bound_rows msgs)); [destruct Hin'|].
        simpl in Hrows. lia.
    + intros Hu. rewrite insert_messages_noop; [split; assumption|].
      intros m row Hin Hb. rewrite M2.
      assert (Hrow := bind_message_uuid m row Hb).
      destruct (m_uuid row) as [u|] eqn:Eu.
      * now apply (insert_messages_stores msgs c1 s1 m row u).
      * apply bind_text_null in Hrow. rewrite Forall_forall in Hu.
        destruct (Hu m Hin) as [H0 H3]; [now rewrite Hb|].
        now destruct Hrow.
Qed.

End Reindex.

(** ** The lines the reading loop passes over *)

Section Skipped.

Variable py_repr : pyval -> string.

(** A line that is not passed over shows in the result of the file. *)
Lemma index_jsonl_kept_line (l : line) (conn : db) (st : stats) :
  discarded l = false ->
  index_jsonl py_repr [l] conn st <> index_jsonl py_repr [] conn st.
Proof.
  intros Hd. unfold index_jsonl. cbn [read_lines insert_sessions].
  destruct l as [| |entry|]; try discriminate.
  - simpl.
    destruct (process_entry py_repr entry [] []) as [[sd msgs]|] eqn:E;
      simpl.
    + assert (Ha := process_entry_aggregated py_repr entry [] sd [] msgs E
                      aggregated_start).
      assert (Hm : exists m, In m msgs).
      { assert (Hf : exists fields, entry = PDict fields).
        { unfold process_entry in E.
          destruct entry as [| | | | | |fields]; try discriminate.
          now exists fields. }
        destruct Hf as [fields ->]. apply process_entry_event in E.
        unfold event in E. simpl in Hd. apply orb_false_elim in Hd as [H1 H2].
        apply negb_false_iff in H1, H2. rewrite H1, H2 in E. simpl in E.
        destruct E as [m [-> _]]. exists m. now left. }
      destruct Hm as [m Hin]. destruct Ha as [_ [_ Hk]].
      destruct (Hk m Hin) as [Hkey _].
      destruct (insert_sessions sd conn st) as [[c1 s1]|] eqn:Es;
        simpl; [|discriminate].
      apply insert_sessions_stats in Es.
      destruct (insert_messages msgs c1 s1) as [c2 s2] eqn:Em.
      assert (Hst := insert_messages_stats msgs c1 s1). rewrite Em in Hst.
      simpl in Hst. subst s2 s1.
      destruct sd as [|kv sd]; [discriminate|].
      intros Hf.
      apply (f_equal (fun o => match o with
                               | Some (_, s) => st_sessions s
                               | None => 0
                               end)) in Hf.
      simpl in Hf. rewrite Zpos_P_of_succ_nat in Hf. lia.
    + intros Hf.
      apply (f_equal (fun o => match o with
                               | Some (_, s) => st_files s
                               | None => 0
                               end)) in Hf.
      simpl in Hf. lia.
  - simpl. intros Hf.
    apply (f_equal (fun o => match o with
                             | Some (_, s) => st_files s
                             | None => 0
                             end)) in Hf.
    simpl in Hf. lia.
Qed.

(** C3, amended.  The lines the reading loop passes over are exactly
    these: a blank line, a line on which [json.loads] raises
    [JSONDecodeError], and a line that decodes to an object whose type is
    outside [user], [assistant], [summary] or which has no [sessionId] (or
    an empty, null, zero or false one).  Such a line is passed over where
    it stands: nothing is raised for it, the file is not given up, and the
    file is indexed exactly as if the line were not there, every other
    line being processed.  No other line is: one on which reading raises
    another exception, or which decodes to something that is not an
    object, or to an event, shows in the result. *)
Theorem C3_discarded_line_is_skipped (l : line) :
  discarded l = true
  <-> (forall before after conn st,
          index_jsonl py_repr (before ++ l :: after) conn st
          = index_jsonl py_repr (before ++ after) conn st).
Proof.
  split.
  - intros Hd before after conn st. unfold index_jsonl.
    now rewrite read_lines_discarded.
  - intros H. destruct (discarded l) eqn:Hd; [reflexivity|].
    now elim (index_jsonl_kept_line l init_db (mk_stats 0 0 0 0) Hd
                (H [] [] init_db (mk_stats 0 0 0 0))).
Qed.

End Skipped.

(** ** The summaries of a pass, read off the file *)

Lemma filter_map_comm {A B : Type} (g : A -> B) (p : B -> bool) (l : list A) :
  filter p (map g l) = map g (filter (fun a => p (g a)) l).
Proof.
  induction l as [|a l IH]; simpl; [reflexivity|].
  destruct (p (g a)); simpl; now rewrite IH.
Qed.

Lemma find_map_comm {A B : Type} (g : A -> B) (p : B -> bool) (l : list A) :
  find p (map g l) = option_map g (find (fun a => p (g a)) l).
Proof.
  induction l as [|a l IH]; simpl; [reflexivity|].
  destruct (p (g a)); [reflexivity | exact IH].
Qed.

Lemma find_pointwise {A : Type} (p q : A -> bool) (l : list A) :
  (forall a, p a = q a) -> find p l = find q l.
Proof.
  intros H. induction l as [|a l IH]; simpl; [reflexivity|].
  now rewrite H, IH.
Qed.

Lemma last_map {A B : Type} (g : A -> B) (l : list A) (d : A) :
  last (map g l) (g d) = g (last l d).
Proof.
  induction l as [|a l IH]; [reflexivity|].
  destruct l as [|b l]; [reflexivity|]. exact IH.
Qed.




(** The events counted under a key are those the key stands first
    among. *)
Lemma filed_under_key (f : list line) (k t x : pyval) :
  find (fun e => key_eqb k (fst e)) (events f) = Some (k, t) ->
  key_eqb k x = true -> filed_under f x = k.
Proof.
  intros Hf Hk. unfold filed_under.
  rewrite (find_pointwise _ (fun e => key_eqb k (fst e))), Hf; [reflexivity|].
  intros e. destruct (key_eqb k (fst e)) eqn:E.
  - apply (key_eqb_trans (fst e) k x); [now rewrite key_eqb_sym | exact Hk].
  - destruct (key_eqb (fst e) x) eqn:E'; [|reflexivity].
    rewrite <- E. symmetry. apply (key_eqb_trans k x (fst e) Hk).
    now rewrite key_eqb_sym.
Qed.



Section PassSummaries.

Variable py_repr : pyval -> string.

(** The key of a summary is the session id of the first of its events. *)
Lemma process_entry_first_key (entry : pyval)
  (session_data session_data' : session_map) (msgs msgs' : list message) :
  process_entry py_repr entry session_data msgs = Some (session_data', msgs') ->
  aggregated session_data msgs ->
  (forall k v first rest,
      In (k, v) session_data -> events_of k msgs = first :: rest ->
      msg_session_id first = k) ->
  forall k v first rest,
    In (k, v) session_data' -> events_of k msgs' = first :: rest ->
    msg_session_id first = k.
Proof.
  intros H [Hd [Hs Hm]] Hinv.
  apply process_entry_retained in H
    as [[-> ->]|[cwd [gb [m [Hh [Ht [Hty [-> ->]]]]]]]]; [exact Hinv|].
  intros k v first rest Hin He. rewrite events_of_snoc in He.
  assert (Hold : forall v0, In (k, v0) session_data ->
                            msg_session_id first = k).
  { intros v0 Hv0.
    destruct (Hs k v0 Hv0) as [first0 [rest0 [He0 _]]].
    rewrite He0 in He. simpl in He. injection He as <- _.
    exact (Hinv k v0 first0 rest0 Hv0 He0). }
  destruct (has_key (msg_session_id m) session_data) eqn:Ek; simpl in Hin.
  - rewrite update_key_twice in Hin.
    destruct (update_key_in _ _ session_data k v Hd Hin) as [v0 [Hv0 _]].
    now apply (Hold v0).
  - rewrite (update_key_absent _ incr_count session_data _ Ek) in Hin.
    simpl in Hin. rewrite (key_eqb_refl _ Hh) in Hin.
    apply in_app_or in Hin as [Hin|[[= <- <-]|[]]]; [now apply (Hold v)|].
    rewrite (events_of_new_key _ session_data msgs Ek
               (fun m' Hm' => proj1 (Hm m' Hm'))) in He.
    rewrite (key_eqb_refl _ Hh) in He. simpl in He. now injection He as <- _.
Qed.

Lemma read_lines_first_key (f : list line)
  (session_data session_data' : session_map) (msgs msgs' : list message) :
  read_lines py_repr f session_data msgs = Some (session_data', msgs') ->
  aggregated session_data msgs ->
  (forall k v first rest,
      In (k, v) session_data -> events_of k msgs = first :: rest ->
      msg_session_id first = k) ->
  forall k v first rest,
    In (k, v) session_data' -> events_of k msgs' = first :: rest ->
    msg_session_id first = k.
Proof.
  revert session_data msgs.
  induction f as [|l f IH]; intros session_data msgs H Ha Hinv.
  - injection H as <- <-. exact Hinv.
  - destruct l as [| |entry|]; simpl in H; try (now apply (IH _ _ H));
      [|discriminate].
    destruct (process_entry py_repr entry session_data msgs)
      as [[sd1 msgs1]|] eqn:E; [|discriminate].
    simpl in H. apply (IH _ _ H).
    + now apply (process_entry_aggregated py_repr entry session_data sd1
                   msgs msgs1).
    + now apply (process_entry_first_key entry session_data sd1 msgs msgs1).
Qed.

Lemma read_lines_pairs (f : list line) (session_data : session_map)
  (msgs : list message) :
  read_lines py_repr f [] [] = Some (session_data, msgs) ->
  events f = map (fun m => (msg_session_id m, msg_timestamp m)) msgs.
Proof.
  intros H. now rewrite (read_lines_events py_repr f [] session_data [] msgs H).
Qed.

(** A summary of the loop, in terms of the lines of the file. *)
Lemma summary_of_file (f : list line) (session_data : session_map)
  (msgs : list message) (k : pyval) (v : sdata) :
  read_lines py_repr f [] [] = Some (session_data, msgs) ->
  In (k, v) session_data ->
  exists t rest,
    session_timestamps k f = t :: rest
    /\ find (fun e => key_eqb k (fst e)) (events f) = Some (k, t)
    /\ sd_first_ts v = t
    /\ sd_last_ts v = last rest t
    /\ sd_count v = Z.of_nat (List.length (t :: rest)).
Proof.
  intros H Hin.
  destruct (read_lines_aggregated py_repr f [] session_data [] msgs H
              aggregated_start) as [_ [Hs _]].
  destruct (Hs k v Hin) as [first [rest [He [Hf [Hl [Hc _]]]]]].
  assert (Hk := read_lines_first_key f [] session_data [] msgs H
                  aggregated_start
                  (fun _ _ _ _ (F : In _ []) => match F with end)
                  k v first rest Hin He).
  exists (msg_timestamp first), (map msg_timestamp rest).
  unfold session_timestamps. rewrite (read_lines_pairs f session_data msgs H).
  rewrite filter_map_comm, map_map, find_map_comm, find_filter. simpl.
  fold (events_of k msgs). rewrite He. simpl. rewrite Hk.
  repeat split; try assumption.
  - rewrite Hl. symmetry. apply last_map.
  - rewrite Hc. simpl. now rewrite length_map.
Qed.



End PassSummaries.

(** ** The merge of a pass into a stored session *)




Section Merge.

Variable py_repr : pyval -> string.




End Merge.

(** ** [first_ts <= last_ts] after a pass *)

Lemma session_conflict_app (row : session_row) (rows1 rows2 : list session_row) :
  session_conflict row (rows1 ++ rows2)
  = session_conflict row rows1 || session_conflict row rows2.
Proof. unfold session_conflict. apply existsb_app. Qed.

Lemma session_conflict_merged (row row' : session_row)
  (rows : list session_row) :
  session_conflict row
    (map (fun r => if Sql.eqb (s_session_id r) (s_session_id row')
                   then merge_session row' r else r) rows)
  = session_conflict row rows.
Proof.
  unfold session_conflict. induction rows as [|r rows IH]; [reflexivity|].
  simpl. rewrite IH. f_equal.
  now destruct (Sql.eqb (s_session_id r) (s_session_id row')).
Qed.

Lemma session_conflict_none (row x : session_row) (rows : list session_row) :
  session_conflict row rows = false -> In x rows ->
  Sql.eqb (s_session_id x) (s_session_id row) = false.
Proof.
  intros Hc Hin. destruct (Sql.eqb _ _) eqn:E; [|reflexivity].
  rewrite <- Hc. symmetry. unfold session_conflict. apply existsb_exists.
  now exists x.
Qed.

(** A row that conflicts with the table and with another row makes that
    row conflict with the table. *)
Lemma session_conflict_through (row r : session_row)
  (rows : list session_row) :
  session_conflict row rows = true ->
  Sql.eqb (s_session_id row) (s_session_id r) = true ->
  session_conflict r rows = true.
Proof.
  unfold session_conflict. intros Hc E.
  apply existsb_exists in Hc as [x [Hin Hx]].
  apply existsb_exists. exists x. split; [exact Hin|].
  destruct (proj1 (sql_eqb_eq _ _) Hx) as [u [Hu Hu']].
  destruct (proj1 (sql_eqb_eq _ _) E) as [w [Hw Hw']].
  rewrite Hu, Hw'. rewrite Hu' in Hw. injection Hw as <-.
  simpl. apply String.eqb_refl.
Qed.

(** One write, seen from a row of the table. *)
Lemma ordered_with_cons (x row : session_row) (later : list session_row) :
  ordered_with x (row :: later)
  = ordered_with (if Sql.eqb (s_session_id x) (s_session_id row)
                  then merge_session row x else x) later.
Proof.
  unfold ordered_with, latest, sent_after. simpl.
  now destruct (Sql.eqb (s_session_id x) (s_session_id row)).
Qed.

Lemma fold_max_none (sent : list Sql.text) : fold_left Sql.max sent None = None.
Proof. induction sent as [|t sent IH]; [reflexivity | exact IH]. Qed.

Lemma fold_max_null (sent : list Sql.text) (a : Sql.text) :
  In None sent -> fold_left Sql.max sent a = None.
Proof.
  revert a. induction sent as [|t sent IH]; intros a Hin; [destruct Hin|].
  simpl. destruct Hin as [->|Hin]; [|now apply IH].
  destruct a; apply fold_max_none.
Qed.

Lemma fold_max_some (sent : list Sql.text) (b : string) :
  (forall t, In t sent -> t <> None) ->
  exists b', fold_left Sql.max sent (Some b) = Some b'
             /\ String.leb b b' = true.
Proof.
  revert b. induction sent as [|t sent IH]; intros b Hs.
  - exists b. split; [reflexivity | apply string_leb_refl].
  - destruct t as [c|]; [|now elim (Hs None (or_introl eq_refl))].
    destruct (IH (if String.ltb b c then c else b)
                (fun t Ht => Hs t (or_intror Ht))) as [b' [E Hb']].
    exists b'. split; [exact E|].
    apply (string_leb_trans b (if String.ltb b c then c else b) b');
      [|exact Hb'].
    apply sql_max_ge, string_leb_refl.
Qed.

(** A row in order stays in order unless a [NULL] is sent for it. *)
Lemma ordered_with_kept (x : session_row) (later : list session_row) :
  first_le_last x = true ->
  ordered_with x later = true
  <-> (forall t, In t (sent_after x later) -> t <> None).
Proof.
  unfold first_le_last, ordered_with, latest. intros Hx.
  destruct (s_first_ts x) as [a|]; [|discriminate].
  destruct (s_last_ts x) as [b|]; [|discriminate]. split.
  - intros Ho t Hin ->. now rewrite (fold_max_null _ _ Hin) in Ho.
  - intros Hs. destruct (fold_max_some _ b Hs) as [b' [-> Hb']].
    now apply (string_leb_trans a b b').
Qed.

(** The rows of the table after the session loop are in order exactly when
    every row is in order with the writes that follow it. *)
Lemma insert_sessions_ordered (items : session_map) :
  forall (conn conn' : db) (st st' : stats),
    insert_sessions items conn st = Some (conn', st') ->
    forallb first_le_last (sessions conn') = true
    <-> (forall x, In x (sessions conn) ->
                   ordered_with x (bound_summaries items) = true)
        /\ (forall before row after,
              bound_summaries items = before ++ row :: after ->
              session_conflict row (sessions conn ++ before) = false ->
              ordered_with row after = true).
Proof.
  induction items as [|[k v] items IH]; intros conn conn' st st' H.
  - injection H as <- <-. rewrite forallb_forall. split.
    + intros Hall. split; [exact Hall|].
      intros [|b before] row after E; discriminate.
    + intros [Hall _]. exact Hall.
  - simpl in H. destruct (bind_session k v) as [row|] eqn:Hb; [|discriminate].
    simpl in H. rewrite (IH _ _ _ _ H).
    unfold bound_summaries. cbn [flat_map fst snd]. rewrite Hb.
    fold (bound_summaries items). cbn [app].
    set (sent := bound_summaries items).
    unfold upsert_session.
    destruct (session_conflict row (sessions conn)) eqn:Ec; cbn [sessions].
    + apply iff_sym. split; intros [H1 H2]; split.
      * intros y Hy. apply in_map_iff in Hy as [x [<- Hx]].
        rewrite <- ordered_with_cons. now apply H1.
      * intros before r after E Hc.
        apply (H2 (row :: before) r after); [now rewrite E|].
        rewrite session_conflict_app, session_conflict_merged in Hc.
        apply orb_false_elim in Hc as [Hc1 Hc2].
        rewrite session_conflict_app, Hc1. simpl.
        unfold session_conflict in Hc2 |- *. simpl. rewrite Hc2, orb_false_r.
        destruct (Sql.eqb (s_session_id row) (s_session_id r)) eqn:E';
          [|reflexivity].
        now rewrite (session_conflict_through row r _ Ec E') in Hc1.
      * intros x Hx. rewrite ordered_with_cons. apply H1.
        now apply (in_map (fun r => if Sql.eqb (s_session_id r)
                                         (s_session_id row)
                                    then merge_session row r else r)).
      * intros [|b before] r after E Hc; injection E as <- E.
        -- subst after. rewrite app_nil_r in Hc. congruence.
        -- apply (H2 before r after E).
           rewrite session_conflict_app, session_conflict_merged.
           rewrite session_conflict_app in Hc.
           apply orb_false_elim in Hc as [Hc1 Hc2]. rewrite Hc1. simpl.
           unfold session_conflict in Hc2 |- *. simpl in Hc2.
           now apply orb_false_elim in Hc2 as [_ Hc2].
    + apply iff_sym. split; intros [H1 H2]; split.
      * intros x Hx. apply in_app_or in Hx as [Hx|[<-|[]]].
        -- specialize (H1 x Hx). rewrite ordered_with_cons in H1.
           now rewrite (session_conflict_none row x _ Ec Hx) in H1.
        -- apply (H2 [] row sent eq_refl). now rewrite app_nil_r.
      * intros before r after E Hc.
        apply (H2 (row :: before) r after); [now rewrite E|].
        now rewrite <- app_assoc in Hc.
      * intros x Hx. rewrite ordered_with_cons.
        rewrite (session_conflict_none row x _ Ec Hx).
        apply H1, in_or_app. now left.
      * intros [|b before] r after E Hc; injection E as <- E.
        -- subst after. apply H1, in_or_app. right. now left.
        -- apply (H2 before r after E). now rewrite <- app_assoc.
Qed.

Section AfterPass.

Variable py_repr : pyval -> string.

(** The rows a pass sends, in terms of the lines of the file. *)
Lemma incoming_rows_file (f : list line) (row : session_row) :
  In row (incoming_rows py_repr f) ->
  exists k t rest,
    session_timestamps k f = t :: rest
    /\ filed_under f k = k
    /\ Sql.bind_text k = Some (s_session_id row)
    /\ Sql.bind_text t = Some (s_first_ts row)
    /\ Sql.bind_text (last rest t) = Some (s_last_ts row)
    /\ s_message_count row = Z.of_nat (List.length (t :: rest)).
Proof.
  unfold incoming_rows, summary, bound_summaries. intros Hin.
  destruct (read_lines py_repr f [] []) as [[sd msgs]|] eqn:E;
    [|destruct Hin].
  apply in_flat_map in Hin as [[k v] [Hkv Hrow]]. simpl in Hrow.
  destruct (bind_session k v) as [row'|] eqn:Hb; [|destruct Hrow].
  destruct Hrow as [->|[]].
  destruct (bind_session_fields k v row Hb) as [Hid [Hf [Hl Hc]]].
  destruct (summary_of_file py_repr f sd msgs k v E Hkv)
    as [t [rest [Ht [Hfind [Hft [Hlt Hct]]]]]].
  subst t. exists k, (sd_first_ts v), rest. rewrite <- Hlt, Hc, <- Hct.
  repeat split; try assumption.
  apply (filed_under_key f k (sd_first_ts v) k Hfind).
  now apply find_some in Hfind as [_ Hfind].
Qed.

(** C6, amended.  After a completed pass over a file, every row of the
    sessions table has [first_ts <= last_ts] (both text, in the order of
    strings) exactly when every row stored before the pass is in order
    with what the pass sends for its session, and every row the pass
    inserts is in order with what the pass sends for its session after
    it: the [first_ts] of a row never changes and its [last_ts] becomes
    the greatest of its own and of those sent, [NULL] as soon as one of
    them is.  A row in order before the pass is thus in order after it
    unless a timestamp that is not text is sent for its session; a
    session the pass inserts takes [first_ts] from the first of its events
    in the file and [last_ts] from the last one, whatever their order. *)
Theorem C6_first_le_last_after_pass (f : list line) (conn conn1 : db)
  (st st1 : stats) :
  index_jsonl py_repr f conn st = Some (conn1, st1) ->
  let sent := incoming_rows py_repr f in
  (forallb first_le_last (sessions conn1) = true
   <-> (forall x, In x (sessions conn) -> ordered_with x sent = true)
       /\ (forall before row after,
             sent = before ++ row :: after ->
             session_conflict row (sessions conn ++ before) = false ->
             ordered_with row after = true))
  /\ (forall x later,
        first_le_last x = true ->
        ordered_with x later = true
        <-> (forall t, In t (sent_after x later) -> t <> None))
  /\ (forall row,
        In row sent ->
        exists k t rest,
          session_timestamps k f = t :: rest
          /\ filed_under f k = k
          /\ Sql.bind_text k = Some (s_session_id row)
          /\ Sql.bind_text t = Some (s_first_ts row)
          /\ Sql.bind_text (last rest t) = Some (s_last_ts row)
          /\ s_message_count row = Z.of_nat (List.length (t :: rest))).
Proof.
  intros H sent. subst sent. split; [|split].
  - unfold incoming_rows, summary.
    apply index_jsonl_cases in H
      as [[E [-> _]]|[sd [msgs [c1 [s1 [E [Hs [-> _]]]]]]]]; rewrite E.
    + exact (insert_sessions_ordered [] conn conn st st eq_refl).
    + rewrite insert_messages_sessions.
      exact (insert_sessions_ordered sd conn c1 st s1 Hs).
  - exact ordered_with_kept.
  - exact (incoming_rows_file f).
Qed.

End AfterPass.

(** ** Session ids that are numbers *)

(** The events with the session ids [1] and [1.0] are one session of the
    file, counted under [1]; their messages are stored under the two
    texts. *)
Example float_session_id_one_key :
  let f := [Decoded (user_entry (PInt 1) (PStr "U1") "2024-01-01T00:00:00Z"
                       "one");
            Decoded (user_entry (PFloat (FFin 1)) (PStr "U2")
                       "2024-01-02T00:00:00Z" "two")] in
  event_count "1" f = 2
  /\ option_map (fun r => (map s_session_id (sessions (fst r)),
                           map s_message_count (sessions (fst r)),
                           map m_session_id (messages (fst r))))
       (index_jsonl (fun _ => "") f init_db (mk_stats 0 0 0 0))
     = Some ([Some "1"], [2],
             [Some "1"; Some (Sql.text_of_real (FFin 1))]).
Proof. split; reflexivity. Qed.

End Store.

(** * Examples *)

(** The examples hold no float, so that no [REAL] is ever rendered. *)
#[export] Instance no_real : Sql.real_text := fun _ => "".

(** C4 as stated fails on a text block whose text is not a string, such
    as [null]: the text goes into the list of parts as it is, and
    ["\n".join] raises [TypeError] on it, where the content of a
    tool-result block would have gone through [str]. *)
Lemma C4_non_string_text_counterexample :
  extract_content no_repr
    (PDict [("role", PStr "assistant");
            ("content", PList [PDict [("type", PStr "text"); ("text", PNone)]])])
  = None
  /\ extract_content no_repr
       (PDict [("role", PStr "assistant");
               ("content", PList [PDict [("type", PStr "tool_result");
                                         ("content", PNone)]])])
     = Some ("None", PStr "", []).
Proof. split; reflexivity. Qed.

Lemma C4_normalize_block_sequence_witness :
  extract_content no_repr (PDict sample_payload)
  = Some (("first" ++ nl ++ "ok" ++ nl ++ "last")%string, PStr "m1",
          [PStr "Bash"; PStr "Bash"]).
Proof.
  assert (Hok : Forall text_block_ok sample_blocks).
  { unfold sample_blocks, text_block_ok.
    repeat constructor; simpl; intros; try discriminate; eexists; reflexivity. }
  destruct (C4_normalize_block_sequence no_repr sample_payload sample_blocks
              eq_refl Hok) as [H _].
  rewrite H. reflexivity.
Defined.

Lemma C7_existing_uuid_noop_witness :
  let conn := mk_db [session_S1 1] [hello_row] [fts_of hello_row] in
  let m := mk_message (PStr "U1") (PStr "S2") PNone (PStr "assistant")
             (PStr "assistant") "other words" (PStr "2025-05-05T05:05:05Z")
             (PStr "m1") "Bash" in
  fst (insert_message m conn stats0) = conn.
Proof.
  intros conn m.
  exact (proj1 (C7_existing_uuid_noop m conn stats0 "U1" hello_row
                  eq_refl (or_introl eq_refl) eq_refl)).
Defined.

Lemma C1_reindex_idempotent_with_uuids_witness :
  let conn1 := mk_db [session_S1 1] [hello_row] [fts_of hello_row] in
  let conn2 := mk_db [session_S1 2] [hello_row] [fts_of hello_row] in
  messages conn2 = messages conn1 /\ messages_fts conn2 = messages_fts conn1.
Proof.
  intros conn1 conn2.
  apply (proj2 (C1_reindex_idempotent_with_uuids no_repr
                  [Decoded hello_entry] init_db conn1 conn2 stats0
                  (mk_stats 1 1 1 0) (mk_stats 2 2 2 0) eq_refl eq_refl)).
  constructor; [|constructor]. intros _. split; discriminate.
Defined.

(** C1 as stated fails on a record whose uuid is [null].  SQLite keeps
    every [NULL] in the [TEXT PRIMARY KEY] of [messages] apart, so
    [INSERT OR IGNORE] stores the record again on each pass and the trigger
    indexes it again: after the first pass of the file there is one message
    row and one index row, after the second pass there are two of each. *)
Lemma C1_null_uuid_counterexample :
  index_jsonl no_repr [Decoded null_uuid_entry] init_db stats0
  = Some (mk_db [session_S1 1] [null_uuid_row] [fts_of null_uuid_row],
          mk_stats 1 1 1 0)
  /\ index_jsonl no_repr [Decoded null_uuid_entry]
       (mk_db [session_S1 1] [null_uuid_row] [fts_of null_uuid_row])
       (mk_stats 1 1 1 0)
     = Some (mk_db [session_S1 2] [null_uuid_row; null_uuid_row]
                   [fts_of null_uuid_row; fts_of null_uuid_row],
             mk_stats 2 2 2 0).
Proof. split; reflexivity. Qed.

Lemma C3_discarded_line_is_skipped_witness :
  let stored := Some (mk_db [session_S1 1] [hello_row] [fts_of hello_row],
                      mk_stats 1 1 1 0) in
  index_jsonl no_repr [Blank; Decoded hello_entry] init_db stats0 = stored
  /\ index_jsonl no_repr [Decoded hello_entry; Undecodable] init_db stats0
     = stored
  /\ index_jsonl no_repr
       [Decoded (PDict [("type", PStr "system"); ("sessionId", PStr "S1")]);
        Decoded hello_entry] init_db stats0
     = stored
  /\ index_jsonl no_repr
       [Decoded hello_entry;
        Decoded (PDict [("type", PStr "user"); ("uuid", PStr "U9")])]
       init_db stats0
     = stored.
Proof.
  intros stored. split; [|split; [|split]].
  - exact (proj1 (C3_discarded_line_is_skipped no_repr Blank) eq_refl
             [] [Decoded hello_entry] init_db stats0).
  - exact (proj1 (C3_discarded_line_is_skipped no_repr Undecodable) eq_refl
             [Decoded hello_entry] [] init_db stats0).
  - exact (proj1 (C3_discarded_line_is_skipped no_repr
                    (Decoded (PDict [("type", PStr "system");
                                     ("sessionId", PStr "S1")])))
             eq_refl [] [Decoded hello_entry] init_db stats0).
  - exact (proj1 (C3_discarded_line_is_skipped no_repr
                    (Decoded (PDict [("type", PStr "user");
                                     ("uuid", PStr "U9")])))
             eq_refl [Decoded hello_entry] [] init_db stats0).
Defined.

(** C3 as stated fails on a line that is valid JSON without being an
    object, such as [42]: it has no type and no sessionId, yet it is not
    passed over.  [entry.get] raises on it, the handler around the whole
    file catches the exception, and the record on the next line is lost
    with it; without the line the record is stored. *)
Lemma C3_non_object_line_counterexample :
  discarded (Decoded (PInt 42)) = false
  /\ index_jsonl no_repr [Decoded (PInt 42); Decoded hello_entry] init_db stats0
     = Some (init_db, mk_stats 0 0 0 1)
  /\ index_jsonl no_repr [Decoded hello_entry] init_db stats0
     = Some (mk_db [session_S1 1] [hello_row] [fts_of hello_row],
             mk_stats 1 1 1 0).
Proof. repeat split. Qed.

(** The two scenarios of the specification. *)
Example scenario_hello_world :
  index_jsonl no_repr [Decoded hello_entry] init_db stats0
  = Some (mk_db [session_S1 1] [hello_row] [fts_of hello_row],
          mk_stats 1 1 1 0).
Proof. reflexivity. Qed.

Example scenario_two_events :
  option_map (fun r => sessions (fst r))
    (index_jsonl no_repr in_order_file init_db stats0)
  = Some [mk_session_row (Some "S2") (Some "") (Some "") (Some "")
            (Some "2024-01-01T00:00:00Z") (Some "2024-01-02T00:00:00Z") 2].
Proof. reflexivity. Qed.

Lemma C10_failed_file_leaves_store_witness :
  let conn := mk_db [session_S1 1] [hello_row] [fts_of hello_row] in
  index_jsonl no_repr
    [Decoded (user_entry (PStr "S2") (PStr "U2") "2024-02-02T00:00:00Z" "lost");
     ReadFailure] conn stats0
  = Some (conn, mk_stats 0 0 0 1).
Proof.
  intros conn.
  exact (proj1 (proj2 (C10_failed_file_leaves_store no_repr
           [Decoded (user_entry (PStr "S2") (PStr "U2") "2024-02-02T00:00:00Z"
                                "lost");
            ReadFailure] conn stats0 eq_refl))).
Defined.


(** C6 as stated fails: a file that holds the later event of a session
    before the earlier one leaves a session row whose [first_ts] is after
    its [last_ts]. *)
Lemma C6_out_of_order_counterexample :
  option_map (fun r => sessions (fst r))
    (index_jsonl no_repr out_of_order_file init_db stats0)
  = Some [mk_session_row (Some "S2") (Some "") (Some "") (Some "")
            (Some "2024-01-02T00:00:00Z") (Some "2024-01-01T00:00:00Z") 2]
  /\ first_le_last
       (mk_session_row (Some "S2") (Some "") (Some "") (Some "")
          (Some "2024-01-02T00:00:00Z") (Some "2024-01-01T00:00:00Z") 2)
     = false.
Proof. split; reflexivity. Qed.

(** The same file read over a database in which the session is stored
    in order: the row keeps its [first_ts] and the greater [last_ts]. *)
Lemma C6_first_le_last_after_pass_witness :
  let stored := match index_jsonl no_repr in_order_file init_db stats0 with
                | Some r => r
                | None => (init_db, stats0)
                end in
  match index_jsonl no_repr out_of_order_file (fst stored) (snd stored) with
  | Some (conn1, _) => forallb first_le_last (sessions conn1) = true
  | None => False
  end.
Proof.
  intros stored.
  destruct (index_jsonl no_repr out_of_order_file (fst stored) (snd stored))
    as [[conn1 st1]|] eqn:E; [|discriminate E].
  apply (proj2 (proj1 (C6_first_le_last_after_pass no_repr out_of_order_file
                         (fst stored) conn1 (snd stored) st1 E))).
  split.
  - intros x Hx. vm_compute in Hx. destruct Hx as [<-|[]]. reflexivity.
  - intros before row after Hs Hc. vm_compute in Hs.
    destruct before as [|b [|b' before]]; simpl in Hs; try discriminate Hs.
    injection Hs as <- <-. vm_compute in Hc. discriminate Hc.
Defined.



Lemma extract_content_ignores_block_witness :
  extract_content no_repr
    (PDict [("content",
             PList [PDict [("type", PStr "thinking"); ("thinking", PStr "hm")];
                    PDict [("type", PStr "text"); ("text", PStr "done")];
                    PStr "stray"])])
  = Some ("done", PStr "", []).
Proof.
  exact (eq_trans
           (extract_content_ignores_block no_repr []
              [PDict [("type", PStr "text"); ("text", PStr "done")];
               PStr "stray"]
              (PDict [("type", PStr "thinking"); ("thinking", PStr "hm")])
              [] eq_refl)
           (eq_trans
              (extract_content_ignores_block no_repr
                 [PDict [("type", PStr "text"); ("text", PStr "done")]] []
                 (PStr "stray") [] eq_refl)
              eq_refl)).
Defined.

Lemma read_lines_summaries_witness :
  match read_lines no_repr (Decoded hello_entry :: in_order_file) [] [] with
  | Some (session_data, msgs) =>
      distinct_keys session_data = true
      /\ forall k v, In (k, v) session_data -> summarizes msgs k v
  | None => False
  end.
Proof.
  destruct (read_lines no_repr (Decoded hello_entry :: in_order_file) [] [])
    as [[session_data msgs]|] eqn:E.
  - destruct (read_lines_summaries no_repr _ session_data msgs E)
      as [Hd [Hs _]].
    split; assumption.
  - discriminate E.
Defined.

Lemma index_jsonl_counters_witness :
  let conn1 := mk_db [session_S1 1] [hello_row] [fts_of hello_row] in
  let conn2 := mk_db [session_S1 2] [hello_row] [fts_of hello_row] in
  st_messages (mk_stats 2 2 2 0) = st_messages (mk_stats 1 1 1 0) + 1
  /\ (List.length (messages conn2) <= List.length (messages conn1) + 1)%nat.
Proof.
  intros conn1 conn2.
  destruct (index_jsonl_counters no_repr [Decoded hello_entry] conn1 conn2
              (mk_stats 1 1 1 0) (mk_stats 2 2 2 0) eq_refl)
    as [H1 [_ [_ H4]]].
  split; [exact H1 | exact H4].
Defined.

Lemma index_jsonl_uncaught_iff_witness :
  index_files no_repr
    [[Decoded hello_entry];
     [Decoded (PDict [("type", PStr "user"); ("sessionId", PStr "S3");
                      ("cwd", PList [PStr "a"])])];
     in_order_file] init_db stats0
  = None.
Proof.
  exact (proj2 (index_jsonl_uncaught_iff no_repr
                  [Decoded (PDict [("type", PStr "user");
                                   ("sessionId", PStr "S3");
                                   ("cwd", PList [PStr "a"])])]
                  init_db stats0)
           eq_refl [[Decoded hello_entry]] [in_order_file] init_db stats0).
Defined.

Lemma index_files_failed_file_witness :
  index_files no_repr
    [[Decoded hello_entry]; [Decoded hello_entry; ReadFailure]; in_order_file]
    init_db stats0
  = option_map (fun cs => (fst cs, count_error (snd cs)))
      (index_files no_repr [[Decoded hello_entry]; in_order_file]
         init_db stats0).
Proof.
  exact (index_files_failed_file no_repr [[Decoded hello_entry]]
           [in_order_file] [Decoded hello_entry; ReadFailure] init_db stats0
           eq_refl).
Defined.

Lemma index_files_accounting_witness :
  match index_files no_repr
          [[Decoded hello_entry]; [ReadFailure]; in_order_file]
          init_db stats0 with
  | Some (_, st') => st_files st' + st_errors st' = 3 /\ st_errors st' = 1
  | None => False
  end.
Proof.
  destruct (index_files no_repr
              [[Decoded hello_entry]; [ReadFailure]; in_order_file]
              init_db stats0) as [[conn' st']|] eqn:E.
  - exact (index_files_accounting no_repr _ init_db conn' stats0 st' E).
  - discriminate E.
Defined.

Lemma index_files_well_formed_witness :
  match index_files no_repr
          [in_order_file; [Decoded hello_entry; Decoded null_uuid_entry]]
          init_db stats0 with
  | Some (conn, _) => well_formed conn
  | None => False
  end.
Proof.
  destruct (index_files no_repr
              [in_order_file; [Decoded hello_entry; Decoded null_uuid_entry]]
              init_db stats0) as [[conn st']|] eqn:E.
  - exact (proj2 (index_files_well_formed no_repr
                    [in_order_file;
                     [Decoded hello_entry; Decoded null_uuid_entry]]
                    init_db conn stats0 st' eq_refl init_db_well_formed E)).
  - discriminate E.
Defined.

Lemma index_files_append_only_witness :
  match index_files no_repr [in_order_file; [Decoded hello_entry]]
          (mk_db [session_S1 1] [hello_row] [fts_of hello_row]) stats0 with
  | Some (conn', _) =>
      db_extends (mk_db [session_S1 1] [hello_row] [fts_of hello_row]) conn'
  | None => False
  end.
Proof.
  destruct (index_files no_repr [in_order_file; [Decoded hello_entry]]
              (mk_db [session_S1 1] [hello_row] [fts_of hello_row]) stats0)
    as [[conn' st']|] eqn:E.
  - exact (index_files_append_only no_repr _ _ conn' stats0 st' E).
  - discriminate E.
Defined.

Lemma cmd_stats_counts_witness :
  List.length (messages hello_db)
  = (count_type "user" hello_db + count_type "assistant" hello_db
     + count_type "summary" hello_db)%nat.
Proof.
  exact (proj1 (cmd_stats_counts "history.db" hello_db eq_refl)).
Defined.




(** The behaviours the amended claims spell out. *)

(** A uuid that is [NaN] is stored as [NULL], and again on every pass. *)
Example scenario_nan_uuid :
  let f := [Decoded (user_entry (PStr "S1") (PFloat FNaN)
                       "2024-01-01T00:00:00Z" "hello world")] in
  option_map (fun r => messages (fst r)) (index_jsonl no_repr f init_db stats0)
  = Some [null_uuid_row]
  /\ option_map (fun r => messages (fst r))
       (index_files no_repr [f; f] init_db stats0)
     = Some [null_uuid_row; null_uuid_row].
Proof. split; reflexivity. Qed.

(** A line on which reading raises something else than [JSONDecodeError]
    gives the file up, with the record before it. *)
Example scenario_read_failure :
  discarded ReadFailure = false
  /\ index_jsonl no_repr [Decoded hello_entry; ReadFailure] init_db stats0
     = Some (init_db, mk_stats 0 0 0 1).
Proof. split; reflexivity. Qed.

(** [show_session] shows the first stored session that matches, [cmd_show]
    the one with the least id. *)
Example scenario_two_matches :
  let session := fun id => mk_session_row (Some id) (Some "") (Some "")
                             (Some "") (Some "") (Some "") 0 in
  let conn := mk_db [session "b1"; session "B0"] [] [] in
  show_session (fun s => s) (fun s => s) "b" 50 conn
  = Some ("Session in ? (-):" ++ nl)%string
  /\ find_session "b" conn = Some (Some (session "b1"))
  /\ find_session_id "b" conn = Some (Some (session "B0"))
  /\ cmd_show (fun s => s) "b" conn
     = Some ["Session: B0"; ("Messages: 0" ++ nl)%string].
Proof. repeat split; reflexivity. Qed.

(** A limit outside 64 bits and a pattern of more than 50000 bytes are
    refused. *)
Example scenario_refused_parameters :
  recent_sessions (2 ^ 63) hello_db = None
  /\ cmd_search word_engine "hello" (2 ^ 63) hello_db = None
  /\ search word_engine "hello" (- 2 ^ 63 - 1) hello_db = None
  /\ cmd_show (fun s => s) (spaces (Z.to_nat 50000)) hello_db = None
  /\ show_session (fun s => s) (fun s => s) (spaces (Z.to_nat 50000)) 50
       hello_db
     = None
  /\ cmd_show (fun s => s) (spaces (Z.to_nat 50000)) init_db
     = Some [not_found (spaces (Z.to_nat 50000))].
Proof. repeat split; vm_compute; reflexivity. Qed.
